(** * Filler detection and script correction (backend/app.py)

    A shallow embedding of the text-cleaning service: the script
    normalizer [apply_script_correction], the primary classifier
    [detect_fillers] with its fallback [simple_regex_fallback], and the
    request handler [process_text].

    Python strings are sequences of Unicode code points, so a string is a
    list of code points ([N]).  The NLTK functions and the Unicode tables
    behind [str.lower] and [str.isalpha] are parameters of the development
    (class [Unicode], class [Nltk]); everything the repository itself
    writes is a definition.  The calls of [logger] change no value the
    handler returns and are left out. *)

From Stdlib Require Import NArith String Ascii.
From stdpp Require Import base option list.

Set Warnings "-register-all".
Local Open Scope N_scope.

(** ** Strings *)

Module Str.

(** A code point and a Python [str]. *)
Definition char : Type := N.
Definition str : Type := list char.

(** Decoding of a UTF-8 byte sequence; only used to write the literals of
    the source (which is a UTF-8 file) as they appear there. *)
Fixpoint utf8_decode (bs : list N) : str :=
  match bs with
  | [] => []
  | b :: r =>
    if b <? 0x80 then b :: utf8_decode r
    else if b <? 0xE0 then
      match r with
      | b1 :: r1 => ((b - 0xC0) * 64 + (b1 - 0x80)) :: utf8_decode r1
      | _ => []
      end
    else if b <? 0xF0 then
      match r with
      | b1 :: b2 :: r2 =>
        ((b - 0xE0) * 4096 + (b1 - 0x80) * 64 + (b2 - 0x80)) :: utf8_decode r2
      | _ => []
      end
    else
      match r with
      | b1 :: b2 :: b3 :: r3 =>
        ((b - 0xF0) * 262144 + (b1 - 0x80) * 4096 + (b2 - 0x80) * 64
         + (b3 - 0x80)) :: utf8_decode r3
      | _ => []
      end
  end.

Fixpoint bytes_of (s : string) : list N :=
  match s with
  | EmptyString => []
  | String a r => N_of_ascii a :: bytes_of r
  end.

(** [u "..."] is the Python literal ["..."]. *)
Definition u (s : string) : str := utf8_decode (bytes_of s).

Definition eqb (a b : str) : bool := bool_decide (a = b).

(** Python truthiness of a string: the empty string is falsy. *)
Definition truthy (s : str) : bool :=
  match s with [] => false | _ :: _ => true end.

(** [c in chars]. *)
Definition mem (c : char) (chars : str) : bool := existsb (N.eqb c) chars.

(** [str.isspace] on one code point: the whitespace of CPython
    (ASCII 0x09-0x0D, 0x1C-0x20 and the Unicode space separators). *)
Definition isspace (c : char) : bool :=
  ((0x09 <=? c) && (c <=? 0x0D)) || ((0x1C <=? c) && (c <=? 0x20))
  || (c =? 0x85) || (c =? 0xA0) || (c =? 0x1680)
  || ((0x2000 <=? c) && (c <=? 0x200A))
  || (c =? 0x2028) || (c =? 0x2029) || (c =? 0x202F) || (c =? 0x205F)
  || (c =? 0x3000).

(** [s.split()]: the maximal runs of non-whitespace code points.
    [cur] is the current run, reversed. *)
Fixpoint split_from (cur : str) (s : str) : list str :=
  match s with
  | [] => match cur with [] => [] | _ => [reverse cur] end
  | c :: r =>
    if isspace c then
      match cur with
      | [] => split_from [] r
      | _ => reverse cur :: split_from [] r
      end
    else split_from (c :: cur) r
  end.

Definition split (s : str) : list str := split_from [] s.

(** [s.lstrip(chars)], [s.rstrip(chars)] and [s.strip(chars)]. *)
Fixpoint lstrip (chars : str) (s : str) : str :=
  match s with
  | [] => []
  | c :: r => if mem c chars then lstrip chars r else s
  end.

Definition rstrip (chars : str) (s : str) : str :=
  reverse (lstrip chars (reverse s)).

Definition strip (chars : str) (s : str) : str :=
  rstrip chars (lstrip chars s).

(** [sep.join(parts)]. *)
Fixpoint join (sep : str) (parts : list str) : str :=
  match parts with
  | [] => []
  | [p] => p
  | p :: rest => p ++ sep ++ join sep rest
  end.

End Str.

Import Str.

(** The tables of the Unicode database that the source reaches through
    [str.lower] and [str.isalpha]. *)
Class Unicode := {
  lower : str → str;
  isalpha_char : char → bool
}.

(** [s.isalpha()]: at least one character and all of them alphabetic. *)
Definition isalpha `{Unicode} (s : str) : bool :=
  truthy s && forallb isalpha_char s.

(** The tables restricted to ASCII, for running the model on examples. *)
Module Ascii7.

Definition is_upper (c : char) : bool := (0x41 <=? c) && (c <=? 0x5A).
Definition is_lower (c : char) : bool := (0x61 <=? c) && (c <=? 0x7A).
Definition lower_char (c : char) : char := if is_upper c then c + 32 else c.

Definition unicode : Unicode := {|
  lower := map lower_char;
  isalpha_char := fun c => is_upper c || is_lower c
|}.

End Ascii7.

(** ** Values of a request and of a response

    [request.json] is a parsed JSON document: a Python value built from
    [None], [bool], numbers, [str], [list] and [dict].  Numbers are kept
    as integers; nothing in the handler computes with them. *)

Inductive json : Type :=
  | JNull
  | JBool (b : bool)
  | JNum (n : Z)
  | JStr (s : str)
  | JArr (items : list json)
  | JObj (fields : list (str * json)).

(** [bool(v)]: what [if not v] tests. *)
Definition json_truthy (v : json) : bool :=
  match v with
  | JNull => false
  | JBool b => b
  | JNum n => negb (Z.eqb n 0)
  | JStr s => truthy s
  | JArr items => match items with [] => false | _ => true end
  | JObj fields => match fields with [] => false | _ => true end
  end.

(** [v == s] for a string literal [s]. *)
Definition json_eq_str (v : json) (s : str) : bool :=
  match v with
  | JStr t => eqb t s
  | _ => false
  end.

(** [type(v).__name__]. *)
Definition type_name (v : json) : str :=
  match v with
  | JNull => u "NoneType"
  | JBool _ => u "bool"
  | JNum _ => u "int"
  | JStr _ => u "str"
  | JArr _ => u "list"
  | JObj _ => u "dict"
  end.

(** A [dict] with string keys, as the list of its items.  The keys of a
    parsed document and of the literal tables below are distinct, so
    the first binding of a key is its only one. *)
Fixpoint dict_lookup {V : Type} (key : str) (d : list (str * V)) : option V :=
  match d with
  | [] => None
  | (k, v) :: rest => if eqb k key then Some v else dict_lookup key rest
  end.

(** [key in d]. *)
Definition dict_in {V : Type} (key : str) (d : list (str * V)) : bool :=
  match dict_lookup key d with Some _ => true | None => false end.

(** [d.get(key, default)]. *)
Definition dict_get {V : Type} (d : list (str * V)) (key : str) (default : V) : V :=
  match dict_lookup key d with Some v => v | None => default end.

(** Exceptions: the [AttributeError] of a method missing on a value, and
    whatever the NLTK functions raise, carried as its message. *)
Inductive exn : Type :=
  | AttributeError (type_of attr : str)
  | NltkError (message : str).

(** [str(e)]. *)
Definition exn_message (e : exn) : str :=
  match e with
  | AttributeError ty attr =>
    u "'" ++ ty ++ u "' object has no attribute '" ++ attr ++ u "'"
  | NltkError message => message
  end.

(** A computation that returns or raises. *)
Inductive result (A : Type) : Type :=
  | Ok (a : A)
  | Raise (e : exn).
Arguments Ok {A} a.
Arguments Raise {A} e.

(** ** Script correction *)

(** Common Devanagari -> English mappings for command words. *)
Definition SCRIPT_CORRECTION_MAP : list (str * str) := Eval cbv in [
  (u "स्टॉप", u "stop");
  (u "रुको", u "stop");
  (u "हेलो", u "hello");
  (u "हाय", u "hi");
  (u "ओके", u "ok");
  (u "ठीक", u "ok");
  (u "हैलो", u "hello");
  (u "गुडबाय", u "goodbye");
  (u "बाय", u "bye");
  (u "येस", u "yes");
  (u "हां", u "yes");
  (u "नो", u "no");
  (u "नहीं", u "no");
  (u "नाम", u "name");
  (u "मेरा", u "my");
  (u "माय", u "my");
  (u "नेम", u "name");
  (u "इज़", u "is");
  (u "इज", u "is");
  (u "अ", u "a");
  (u "ऐ", u "a");
  (u "एन", u "an");
  (u "द", u "the");
  (u "व्हाट", u "what");
  (u "व्हेन", u "when");
  (u "व्हेर", u "where");
  (u "हाउ", u "how");
  (u "यू", u "you");
  (u "आर", u "are");
  (u "एम", u "am");
  (u "आई", u "i");
  (u "प्ले", u "play");
  (u "पॉज़", u "pause");
  (u "कॉल", u "call")
].

(** The characters stripped from a token before the lookup. *)
Definition correction_punct : str := Eval cbv in u ".,!?।".

(** One iteration of the loop over the tokens: the state is
    [(corrected_tokens, normalization_occurred)]. *)
Definition correction_step (st : list str * bool) (token : str) : list str * bool :=
  let clean := strip correction_punct token in
  match dict_lookup clean SCRIPT_CORRECTION_MAP with
  | Some latin => (st.1 ++ [latin], true)
  | None => (st.1 ++ [token], st.2)
  end.

Definition apply_script_correction (text : str) (context_lang : json) : str :=
  if negb (json_eq_str context_lang (u "en-IN")) then text
  else
    let tokens := split text in
    let '(corrected_tokens, normalization_occurred) :=
      fold_left correction_step tokens ([], false) in
    if normalization_occurred then join (u " ") corrected_tokens
    else text.

Definition en_IN : json := JStr (u "en-IN").

(** ** Filler classification *)

(** The NLTK functions the service calls.  [detokenize] stands for the
    import of [TreebankWordDetokenizer], its construction and the call of
    its [detokenize], which the source guards together. *)
Class Nltk := {
  word_tokenize : str → result (list str);
  pos_tag : list str → result (list (str * str));
  detokenize : list str → result str
}.

(** The variables of the classification loops.  [last_token] is
    [last_token] in [detect_fillers] and [last_word] in
    [simple_regex_fallback]; [None] is Python's [None]. *)
Record loop_state : Type := LoopState {
  clean_tokens : list str;
  fillers : list str;
  last_token : option str
}.

Definition loop_init : loop_state :=
  {| clean_tokens := []; fillers := []; last_token := None |}.

(** Truthiness of [last_token]: [None] and the empty string are falsy. *)
Definition last_truthy (last : option str) : bool :=
  match last with
  | None => false
  | Some s => truthy s
  end.

(** [last == term]. *)
Definition last_eq (last : option str) (term : str) : bool :=
  match last with
  | None => false
  | Some s => eqb s term
  end.

(** The body of the loops after [is_filler] is known. *)
Definition record_token (st : loop_state) (word term : str) (is_filler : bool)
  : loop_state :=
  if is_filler then
    {| clean_tokens := clean_tokens st;
       fillers := fillers st ++ [word];
       last_token := last_token st |}
  else
    {| clean_tokens := clean_tokens st ++ [word];
       fillers := fillers st;
       last_token := Some term |}.

Definition FALLBACK_FILLERS : list str :=
  [u "um"; u "uh"; u "hmm"; u "ah"; u "er"].

Definition fallback_punct : str := u ",.!?".

Definition tag_UH : str := u "UH".

Section Classifiers.
Context `{Unicode}.

(** [is_filler] of [simple_regex_fallback] for one word. *)
Definition fallback_is_filler (last_word : option str) (lower : str) : bool :=
  if existsb (eqb lower) FALLBACK_FILLERS then true
  else if last_truthy last_word && last_eq last_word lower && isalpha lower
  then true
  else false.

Definition fallback_step (st : loop_state) (word : str) : loop_state :=
  let lower := strip fallback_punct (lower word) in
  record_token st word lower (fallback_is_filler (last_token st) lower).

(** Fallback if NLTK fails: detects 'um', 'uh' and repeated words. *)
Definition simple_regex_fallback (text : str) : list str * list str :=
  let tokens := split text in
  let st := fold_left fallback_step tokens loop_init in
  (clean_tokens st, fillers st).

(** [is_filler] of [detect_fillers] for one tagged word. *)
Definition primary_is_filler (last : option str) (term tag : str) : bool :=
  if eqb tag tag_UH then true
  else if last_truthy last && last_eq last term && isalpha term then true
  else false.

Definition detect_step (st : loop_state) (tagged_word : str * str) : loop_state :=
  let '(word, tag) := tagged_word in
  let term := lower word in
  record_token st word term (primary_is_filler (last_token st) term tag).

Definition classify_tagged (tagged : list (str * str)) : list str * list str :=
  let st := fold_left detect_step tagged loop_init in
  (clean_tokens st, fillers st).

Context `{Nltk}.

(** The body of the [try] of [detect_fillers]. *)
Definition detect_fillers_nltk (text : str) : result (list str * list str) :=
  match word_tokenize text with
  | Raise e => Raise e
  | Ok tokens =>
    match pos_tag tokens with
    | Raise e => Raise e
    | Ok tagged => Ok (classify_tagged tagged)
    end
  end.

(** Detects filler words using NLTK POS tagging and repetition patterns;
    on any exception, the fallback. *)
Definition detect_fillers (text : str) : list str * list str :=
  match detect_fillers_nltk text with
  | Ok r => r
  | Raise _ => simple_regex_fallback text
  end.

(** ** The request handler *)

(** What the client gets: a JSON body with a status, or the server's
    answer to an exception that left the handler. *)
Inductive response : Type :=
  | Respond (status : N) (body : json)
  | Unhandled (e : exn).

(** [v.get(key, default)]: only a [dict] has [get]. *)
Definition py_get (v : json) (key : str) (default : json) : result json :=
  match v with
  | JObj fields => Ok (dict_get fields key default)
  | _ => Raise (AttributeError (type_name v) (u "get"))
  end.

Definition empty_response : json :=
  JObj [(u "processed_text", JStr []); (u "fillers", JArr [])].

(** [reconstructed]: the detokenizer, or a join on spaces when it fails. *)
Definition reconstruct (clean_tokens : list str) : str :=
  match detokenize clean_tokens with
  | Ok s => s
  | Raise _ => join (u " ") clean_tokens
  end.

(** The handler after the empty-input check, for a text that is a string. *)
Definition process_nonempty (text : str) (context_lang action : json) : response :=
  let text := apply_script_correction text context_lang in
  let '(clean_tokens, fillers) := detect_fillers text in
  let reconstructed := reconstruct clean_tokens in
  let processed_text :=
    if json_eq_str action (u "remove") then reconstructed
    else if json_eq_str action (u "mark") then reconstructed
    else text in
  Respond 200 (JObj [(u "processed_text", JStr processed_text);
                     (u "fillers_detected", JArr (map JStr fillers));
                     (u "original_text", JStr text)]).

(** A truthy text that is no string has no [split]: under 'en-IN' the
    script correction raises outside the [try]; otherwise the tokenizer
    rejects it, the fallback of [detect_fillers] raises on [split], and
    the [except] of the handler answers. *)
Definition process_not_str (text context_lang : json) : response :=
  let e := AttributeError (type_name text) (u "split") in
  if json_eq_str context_lang (u "en-IN") then Unhandled e
  else Respond 500 (JObj [(u "error", JStr (exn_message e))]).

Definition process_text (data : json) : response :=
  match py_get data (u "text") (JStr []) with
  | Raise e => Unhandled e
  | Ok text =>
  match py_get data (u "config") (JObj []) with
  | Raise e => Unhandled e
  | Ok config =>
  match py_get data (u "language") en_IN with
  | Raise e => Unhandled e
  | Ok context_lang =>
  match py_get config (u "action") (JStr (u "remove")) with
  | Raise e => Unhandled e
  | Ok action =>
    if negb (json_truthy text) then Respond 200 empty_response
    else
      match text with
      | JStr text => process_nonempty text context_lang action
      | _ => process_not_str text context_lang
      end
  end end end end.

End Classifiers.

(** ** Stand-ins for NLTK, to run the model *)

(** NLTK without its corpora: every call raises. *)
Module Offline.

Definition missing : exn := NltkError (u "Resource punkt not found.").

Definition nltk : Nltk := {|
  word_tokenize := fun _ => Raise missing;
  pos_tag := fun _ => Raise missing;
  detokenize := fun _ => Raise missing
|}.

End Offline.

(** A small tagger: whitespace tokens, 'um' and 'uh' tagged [UH] and
    every other word [NN]; the detokenizer joins on spaces. *)
Module Toy.

Definition tag_of (word : str) : str :=
  if existsb (eqb (map Ascii7.lower_char word)) [u "um"; u "uh"]
  then tag_UH else u "NN".

Definition nltk : Nltk := {|
  word_tokenize := fun text => Ok (split text);
  pos_tag := fun tokens => Ok (map (fun w => (w, tag_of w)) tokens);
  detokenize := fun tokens => Ok (join (u " ") tokens)
|}.

End Toy.

(** A request with a text and an action, for running the handler. *)
Definition request (text : str) (action : string) : json :=
  JObj [(u "text", JStr text); (u "config", JObj [(u "action", JStr (u action))])].

(** ** The properties the service is specified by *)

(** Every element of [whole] goes to exactly one of [left] and [right],
    and both keep the order of [whole]. *)
Inductive interleave {A : Type} : list A → list A → list A → Prop :=
  | interleave_nil : interleave [] [] []
  | interleave_left x left right whole :
      interleave left right whole →
      interleave (x :: left) right (x :: whole)
  | interleave_right x left right whole :
      interleave left right whole →
      interleave left (x :: right) (x :: whole).

(** A classification of [tokens] into [contents] and [fillers]: nothing
    is added or lost and both lists keep the order of [tokens]. *)
Definition partitions {A : Type} (contents fillers tokens : list A) : Prop :=
  (length contents + length fillers = length tokens)%nat
  ∧ interleave contents fillers tokens
  ∧ sublist contents tokens
  ∧ sublist fillers tokens
  ∧ contents ++ fillers ≡ₚ tokens.

(** [key] is [token] without the characters of [chars] at its two ends. *)
Definition stripped_of (chars token key : str) : Prop :=
  ∃ pre post,
    token = pre ++ key ++ post
    ∧ Forall (λ c, mem c chars = true) pre
    ∧ Forall (λ c, mem c chars = true) post
    ∧ (∀ c, head key = Some c → mem c chars = false)
    ∧ (∀ c, last key = Some c → mem c chars = false).

(** The lookup key of the script correction, and the key read as
    stripping at the end of the token only. *)
Definition correction_key (token : str) : str := strip correction_punct token.
Definition trailing_correction_key (token : str) : str :=
  rstrip correction_punct token.

(** What a token becomes when its key is [key token]. *)
Definition corrected_with (key : str → str) (token : str) : str :=
  match dict_lookup (key token) SCRIPT_CORRECTION_MAP with
  | Some latin => latin
  | None => token
  end.

(** The variable [corrected_tokens] at the end of the loop. *)
Definition corrected_tokens (text : str) : list str :=
  (fold_left correction_step (split text) ([], false)).1.

(** A request object whose [config] is absent or an object, as the
    interface declares it. *)
Definition config_ok (fields : list (str * json)) : Prop :=
  match dict_lookup (u "config") fields with
  | None | Some (JObj _) => True
  | Some _ => False
  end.

(** The body of the response to a non-empty text. *)
Definition success_body (processed_text : str) (fillers : list str)
    (original_text : str) : json :=
  JObj [(u "processed_text", JStr processed_text);
        (u "fillers_detected", JArr (map JStr fillers));
        (u "original_text", JStr original_text)].

Section Specification.
Context `{Unicode}.

(** The two rules: rule 1 ([listed]: the interjection tag, or the
    fallback vocabulary), or the term repeats the last content term and
    is alphabetic. *)
Definition filler_rule (listed : Prop) (last : option str) (term : str) : Prop :=
  listed ∨ (last = Some term ∧ isalpha term = true).

(** [classified word_of term_of listed last tokens contents fillers]:
    walking [tokens] from the left with [last] the term of the last
    content token, a token is a filler exactly when [filler_rule] holds,
    and [last] advances on content tokens only. *)
Inductive classified {T : Type} (word_of term_of : T → str) (listed : T → Prop)
  : option str → list T → list str → list str → Prop :=
  | classified_nil last : classified word_of term_of listed last [] [] []
  | classified_filler last x rest cs fs :
      filler_rule (listed x) last (term_of x) →
      classified word_of term_of listed last rest cs fs →
      classified word_of term_of listed last (x :: rest) cs (word_of x :: fs)
  | classified_content last x rest cs fs :
      ¬ filler_rule (listed x) last (term_of x) →
      classified word_of term_of listed (Some (term_of x)) rest cs fs →
      classified word_of term_of listed last (x :: rest) (word_of x :: cs) fs.

Definition primary_classified :=
  classified (T := str * str) fst (λ wt, lower wt.1) (λ wt, wt.2 = tag_UH).

(** The comparison key of the fallback, and the key read as stripping
    at the end of the word only. *)
Definition fallback_key (word : str) : str := strip fallback_punct (lower word).
Definition trailing_fallback_key (word : str) : str :=
  rstrip fallback_punct (lower word).

Definition fallback_classified (key : str → str) :=
  classified (T := str) id key (λ w, key w ∈ FALLBACK_FILLERS).

(** No two neighbours of [terms] are the same alphabetic term. *)
Definition no_adjacent_repeats (terms : list str) : Prop :=
  ∀ i term, terms !! i = Some term → terms !! (S i) = Some term →
            isalpha term = false.

Context `{Nltk}.

(** The tagged tokens of the primary path. *)
Definition tag_text (text : str) : result (list (str * str)) :=
  match word_tokenize text with
  | Raise e => Raise e
  | Ok tokens => pos_tag tokens
  end.

(** The tokens a text is classified from: those of the tagger, or of
    [split] when the tagger raised. *)
Definition path_tokens (text : str) : list str :=
  match tag_text text with
  | Ok tagged => tagged.*1
  | Raise _ => split text
  end.

(** A text with no interjection and no adjacent repeated word, on the
    path that classifies it. *)
Definition cleaned (text : str) : Prop :=
  match tag_text text with
  | Ok tagged =>
    Forall (λ wt : str * str, wt.2 ≠ tag_UH) tagged
    ∧ no_adjacent_repeats ((λ wt : str * str, lower wt.1) <$> tagged)
  | Raise _ =>
    Forall (λ w, fallback_key w ∉ FALLBACK_FILLERS) (split text)
    ∧ no_adjacent_repeats (fallback_key <$> split text)
  end.

End Specification.

(** ** Further vocabulary for the properties *)

(** A token as [split] produces it: not empty and free of whitespace. *)
Definition proper_token (token : str) : Prop :=
  token ≠ [] ∧ Forall (λ c, isspace c = false) token.

(** The code points of the Devanagari block. *)
Definition is_devanagari (c : char) : bool := (0x900 <=? c) && (c <=? 0x97F).

(** [v] is a JSON object. *)
Definition is_object (v : json) : bool :=
  match v with JObj _ => true | _ => false end.

(** [v] is a string. *)
Definition is_string (v : json) : bool :=
  match v with JStr _ => true | _ => false end.

(** ** A second run of the pipeline *)

(** A detokenizer that, as the Treebank detokenizer does for plain
    words, puts a space between two tokens and none before a punctuation
    token; the tokenizer and the tagger are without their corpora. *)
Module Attaching.

Definition is_punctuation (token : str) : bool :=
  existsb (eqb token) [u ","; u "."; u "!"; u "?"; u ";"; u ":"].

Fixpoint attach (tokens : list str) : str :=
  match tokens with
  | [] => []
  | token :: rest =>
    match rest with
    | [] => token
    | next :: _ =>
      if is_punctuation next then token ++ attach rest
      else token ++ u " " ++ attach rest
    end
  end.

Definition nltk : Nltk := {|
  word_tokenize := fun _ => Raise Offline.missing;
  pos_tag := fun _ => Raise Offline.missing;
  detokenize := fun tokens => Ok (attach tokens)
|}.

End Attaching.

Section SecondRun.
Context `{Nltk}.

(** Two texts that the path classifying them tokenizes and tags alike:
    the same tagged tokens, or the tagger raising on both and the same
    whitespace tokens. *)
Definition same_tagging (a b : str) : Prop :=
  match tag_text a, tag_text b with
  | Ok tagged_a, Ok tagged_b => tagged_a = tagged_b
  | Raise _, Raise _ => split a = split b
  | _, _ => False
  end.

End SecondRun.

(** * Properties *)

Local Close Scope N_scope.

(** ** Strings *)

Lemma str_eqb_eq (a b : str) : eqb a b = true ↔ a = b.
Proof. unfold eqb. apply bool_decide_eq_true. Qed.

Lemma str_eqb_neq (a b : str) : eqb a b = false ↔ a ≠ b.
Proof. unfold eqb. apply bool_decide_eq_false. Qed.

Lemma existsb_eqb_elem_of (s : str) (l : list str) :
  existsb (eqb s) l = true ↔ s ∈ l.
Proof.
  induction l as [|x l IH]; simpl.
  - split; [discriminate | intros Hin; inversion Hin].
  - rewrite orb_true_iff, IH, str_eqb_eq, elem_of_cons. done.
Qed.

Lemma lstrip_spec (chars s : str) :
  ∃ pre, s = pre ++ lstrip chars s
         ∧ Forall (λ c, mem c chars = true) pre
         ∧ ∀ c, head (lstrip chars s) = Some c → mem c chars = false.
Proof.
  induction s as [|c s IH]; simpl.
  - exists []. split_and!; [done | constructor | discriminate].
  - destruct (mem c chars) eqn:Hc.
    + destruct IH as (pre & Heq & Hpre & Hhd).
      exists (c :: pre). split_and!; [by rewrite Heq at 1 | by constructor | done].
    + exists []. split_and!; [done | constructor |].
      intros c' [= <-]. done.
Qed.

Lemma rstrip_spec (chars s : str) :
  ∃ post, s = rstrip chars s ++ post
          ∧ Forall (λ c, mem c chars = true) post
          ∧ ∀ c, last (rstrip chars s) = Some c → mem c chars = false.
Proof.
  unfold rstrip.
  destruct (lstrip_spec chars (reverse s)) as (pre & Heq & Hpre & Hhd).
  exists (reverse pre). split_and!.
  - rewrite <- reverse_app, <- Heq. by rewrite reverse_involutive.
  - by apply Forall_reverse.
  - intros c Hc. apply Hhd. by rewrite <- last_reverse.
Qed.

Lemma strip_spec (chars token : str) : stripped_of chars token (strip chars token).
Proof.
  unfold strip.
  destruct (lstrip_spec chars token) as (pre & Heq & Hpre & Hhd).
  destruct (rstrip_spec chars (lstrip chars token)) as (post & Heq' & Hpost & Hlast).
  exists pre, post. split_and!; try done.
  - by rewrite <- Heq'.
  - intros c Hc. apply Hhd. rewrite Heq'.
    destruct (rstrip chars (lstrip chars token)); [done | exact Hc].
Qed.

Lemma isalpha_truthy `{Unicode} (s : str) : isalpha s = true → truthy s = true.
Proof. unfold isalpha. by intros [? _]%andb_true_iff. Qed.

(** ** The classification loops *)

Lemma interleave_length {A} (l r w : list A) :
  interleave l r w → length l + length r = length w.
Proof. induction 1; simpl; lia. Qed.

Lemma interleave_sublist_l {A} (l r w : list A) : interleave l r w → sublist l w.
Proof. induction 1; by constructor. Qed.

Lemma interleave_sublist_r {A} (l r w : list A) : interleave l r w → sublist r w.
Proof. induction 1; by constructor. Qed.

Lemma interleave_Permutation {A} (l r w : list A) : interleave l r w → l ++ r ≡ₚ w.
Proof.
  induction 1; simpl; [done | by f_equiv |].
  rewrite <- Permutation_middle. by f_equiv.
Qed.

Lemma interleave_partitions {A} (l r w : list A) : interleave l r w → partitions l r w.
Proof.
  intros Hi. unfold partitions. split_and!; [|done|..].
  - by apply interleave_length.
  - by eapply interleave_sublist_l.
  - by eapply interleave_sublist_r.
  - by apply interleave_Permutation.
Qed.

Section Loop.
Context `{Unicode}.
Context {T : Type} (word_of term_of : T → str) (listed : T → Prop).
Context (step : loop_state → T → loop_state) (flag : option str → T → bool).
Hypothesis step_eq : ∀ st x,
  step st x = record_token st (word_of x) (term_of x) (flag (last_token st) x).
Hypothesis flag_spec : ∀ last x,
  flag last x = true ↔ filler_rule (listed x) last (term_of x).

Lemma classified_det last xs cs fs cs' fs' :
  classified word_of term_of listed last xs cs fs →
  classified word_of term_of listed last xs cs' fs' →
  cs = cs' ∧ fs = fs'.
Proof.
  intros Hc. revert cs' fs'.
  induction Hc as [last|last x rest cs fs Hr _ IH|last x rest cs fs Hr _ IH];
    intros cs' fs' Hc'; inversion Hc'; subst; try done.
  - destruct (IH _ _ ltac:(eassumption)) as [-> ->]. done.
  - destruct (IH _ _ ltac:(eassumption)) as [-> ->]. done.
Qed.

Lemma classified_interleave last xs cs fs :
  classified word_of term_of listed last xs cs fs →
  interleave cs fs (word_of <$> xs).
Proof. induction 1; simpl; by constructor. Qed.

(** The loop from any state: what it appends is the classification of
    the remaining tokens from that state's [last_token]. *)
Lemma fold_classified xs st :
  ∃ cs fs,
    classified word_of term_of listed (last_token st) xs cs fs
    ∧ clean_tokens (fold_left step xs st) = clean_tokens st ++ cs
    ∧ fillers (fold_left step xs st) = fillers st ++ fs.
Proof.
  revert st. induction xs as [|x xs IH]; intros st; simpl.
  - exists [], []. rewrite !app_nil_r. split_and!; [constructor | done | done].
  - destruct (IH (step st x)) as (cs & fs & Hc & Hcl & Hfl).
    rewrite Hcl, Hfl. rewrite step_eq in Hc |- *. unfold record_token in *.
    destruct (flag (last_token st) x) eqn:Hflag; simpl in *.
    + exists cs, (word_of x :: fs). split_and!; [|done|by rewrite <- app_assoc].
      apply classified_filler; [by apply flag_spec | done].
    + exists (word_of x :: cs), fs. split_and!; [|by rewrite <- app_assoc|done].
      apply classified_content; [|done].
      rewrite <- flag_spec, Hflag. done.
Qed.

(** [last_token] is the term of the last content token so far. *)
Lemma fold_last_token xs st :
  (∃ ys, clean_tokens st = word_of <$> ys
         ∧ last_token st = term_of <$> last ys) →
  ∃ ys, clean_tokens (fold_left step xs st) = word_of <$> ys
        ∧ last_token (fold_left step xs st) = term_of <$> last ys.
Proof.
  revert st. induction xs as [|x xs IH]; intros st Hst; simpl; [done|].
  apply IH. destruct Hst as (ys & Hcl & Hl).
  rewrite step_eq. unfold record_token.
  destruct (flag (last_token st) x); simpl.
  - by exists ys.
  - exists (ys ++ [x]). rewrite fmap_app, last_snoc, Hcl. done.
Qed.

(** With no token under rule 1 and no adjacent repeat, every token is
    content. *)
Lemma classified_all_content last xs :
  Forall (λ x, ¬ listed x) xs →
  no_adjacent_repeats (term_of <$> xs) →
  (∀ x, head xs = Some x → last = Some (term_of x) → isalpha (term_of x) = false) →
  classified word_of term_of listed last xs (word_of <$> xs) [].
Proof.
  revert last. induction xs as [|x xs IH]; intros last Hl Hr Hhd; simpl.
  - constructor.
  - inversion Hl as [|? ? Hx Hxs]; subst.
    apply classified_content.
    + intros [?|[Heq Ha]]; [done|].
      rewrite (Hhd x eq_refl Heq) in Ha. done.
    + apply IH; [done | |].
      * intros i term Hi HSi. apply (Hr (S i) term); done.
      * intros y Hy [= Heq]. apply (Hr 0%nat (term_of y)); simpl.
        -- by rewrite Heq.
        -- destruct xs; simplify_eq/=. done.
Qed.

Lemma fold_all_content xs :
  Forall (λ x, ¬ listed x) xs →
  no_adjacent_repeats (term_of <$> xs) →
  clean_tokens (fold_left step xs loop_init) = word_of <$> xs
  ∧ fillers (fold_left step xs loop_init) = [].
Proof.
  intros Hl Hr.
  destruct (fold_classified xs loop_init) as (cs & fs & Hc & -> & ->).
  simpl in *.
  assert (classified word_of term_of listed None xs (word_of <$> xs) []) as Hc'.
  { apply classified_all_content; done. }
  destruct (classified_det _ _ _ _ _ _ Hc Hc') as [-> ->]. done.
Qed.

End Loop.

Section Properties.
Context `{Unicode}.

Lemma repeat_test_spec (last : option str) (term : str) :
  last_truthy last && last_eq last term && isalpha term = true
  ↔ last = Some term ∧ isalpha term = true.
Proof.
  rewrite !andb_true_iff. split.
  - intros [[_ Heq] Ha]. split; [|done].
    destruct last as [s|]; [|done]. apply str_eqb_eq in Heq. by subst.
  - intros [-> Ha]. simpl. rewrite Ha, (isalpha_truthy _ Ha).
    split_and!; try done. by apply str_eqb_eq.
Qed.

Lemma primary_is_filler_spec (last : option str) (term tag : str) :
  primary_is_filler last term tag = true
  ↔ filler_rule (tag = tag_UH) last term.
Proof.
  unfold primary_is_filler, filler_rule.
  destruct (eqb tag tag_UH) eqn:Htag.
  - apply str_eqb_eq in Htag. split; [by left | done].
  - apply str_eqb_neq in Htag.
    destruct (last_truthy last && last_eq last term && isalpha term) eqn:Hr.
    + apply repeat_test_spec in Hr. split; [by right | done].
    + split; [done|]. intros [?|Hr']; [done|].
      apply repeat_test_spec in Hr'. congruence.
Qed.

Lemma fallback_is_filler_spec (last : option str) (key : str) :
  fallback_is_filler last key = true
  ↔ filler_rule (key ∈ FALLBACK_FILLERS) last key.
Proof.
  unfold fallback_is_filler, filler_rule.
  destruct (existsb (eqb key) FALLBACK_FILLERS) eqn:Hv.
  - apply existsb_eqb_elem_of in Hv. split; [by left | done].
  - assert (key ∉ FALLBACK_FILLERS) as Hnv.
    { rewrite <- existsb_eqb_elem_of, Hv. done. }
    destruct (last_truthy last && last_eq last key && isalpha key) eqn:Hr.
    + apply repeat_test_spec in Hr. split; [by right | done].
    + split; [done|]. intros [?|Hr']; [done|].
      apply repeat_test_spec in Hr'. congruence.
Qed.

Lemma detect_step_eq (st : loop_state) (wt : str * str) :
  detect_step st wt =
  record_token st wt.1 (lower wt.1)
    (primary_is_filler (last_token st) (lower wt.1) wt.2).
Proof. by destruct wt. Qed.

Lemma detect_loop_classified (tagged : list (str * str)) (st : loop_state) :
  ∃ cs fs,
    primary_classified (last_token st) tagged cs fs
    ∧ clean_tokens (fold_left detect_step tagged st) = clean_tokens st ++ cs
    ∧ fillers (fold_left detect_step tagged st) = fillers st ++ fs.
Proof.
  apply (fold_classified fst (λ wt, lower wt.1) (λ wt, wt.2 = tag_UH) detect_step
           (λ last wt, primary_is_filler last (lower wt.1) wt.2)).
  - apply detect_step_eq.
  - intros last wt. apply primary_is_filler_spec.
Qed.

Lemma fallback_loop_classified (tokens : list str) (st : loop_state) :
  ∃ cs fs,
    fallback_classified fallback_key (last_token st) tokens cs fs
    ∧ clean_tokens (fold_left fallback_step tokens st) = clean_tokens st ++ cs
    ∧ fillers (fold_left fallback_step tokens st) = fillers st ++ fs.
Proof.
  apply (fold_classified id fallback_key (λ w, fallback_key w ∈ FALLBACK_FILLERS)
           fallback_step (λ last w, fallback_is_filler last (fallback_key w))).
  - done.
  - intros last w. apply fallback_is_filler_spec.
Qed.

Lemma classify_tagged_classified (tagged : list (str * str)) :
  primary_classified None tagged (classify_tagged tagged).1 (classify_tagged tagged).2.
Proof.
  destruct (detect_loop_classified tagged loop_init) as (cs & fs & Hc & Hcl & Hfl).
  unfold classify_tagged. simpl in *. by rewrite Hcl, Hfl.
Qed.

Lemma fallback_classified_run (text : str) :
  fallback_classified fallback_key None (split text)
    (simple_regex_fallback text).1 (simple_regex_fallback text).2.
Proof.
  destruct (fallback_loop_classified (split text) loop_init)
    as (cs & fs & Hc & Hcl & Hfl).
  unfold simple_regex_fallback. simpl in *. by rewrite Hcl, Hfl.
Qed.

Lemma classify_tagged_interleave (tagged : list (str * str)) :
  interleave (classify_tagged tagged).1 (classify_tagged tagged).2 tagged.*1.
Proof.
  apply (classified_interleave fst (λ wt, lower wt.1) (λ wt, wt.2 = tag_UH) None).
  apply classify_tagged_classified.
Qed.

Lemma fallback_interleave (text : str) :
  interleave (simple_regex_fallback text).1 (simple_regex_fallback text).2
    (split text).
Proof.
  rewrite <- (list_fmap_id (split text)).
  apply (classified_interleave id fallback_key
           (λ w, fallback_key w ∈ FALLBACK_FILLERS) None).
  apply fallback_classified_run.
Qed.

Context `{Nltk}.

Lemma detect_fillers_primary (text : str) (tokens : list str)
    (tagged : list (str * str)) :
  word_tokenize text = Ok tokens → pos_tag tokens = Ok tagged →
  detect_fillers text = classify_tagged tagged.
Proof.
  intros Ht Hp. unfold detect_fillers, detect_fillers_nltk. by rewrite Ht, Hp.
Qed.

Lemma detect_fillers_raise (text : str) (e : exn) :
  detect_fillers_nltk text = Raise e →
  detect_fillers text = simple_regex_fallback text.
Proof. intros He. unfold detect_fillers. by rewrite He. Qed.

(** C1: in the primary path the tagged tokens are walked from the left
    with [last_token] starting at [None]; a token is a filler exactly when
    its tag is 'UH' or its lowercase form equals [last_token] and is
    alphabetic; [last_token] advances on content tokens only, so it always
    is the lowercase form of the last content token; the first token is
    a filler only by its tag; and this loop is what [detect_fillers]
    returns when the tagger answers. *)
Theorem primary_classification_rule (tagged : list (str * str)) :
  primary_classified None tagged
    (classify_tagged tagged).1 (classify_tagged tagged).2
  ∧ (∀ cs fs, primary_classified None tagged cs fs →
              classify_tagged tagged = (cs, fs))
  ∧ (let st := fold_left detect_step tagged loop_init in
     last_token st = lower <$> last (clean_tokens st))
  ∧ (∀ word tag, primary_is_filler None (lower word) tag = true ↔ tag = tag_UH)
  ∧ (∀ text tokens,
       word_tokenize text = Ok tokens → pos_tag tokens = Ok tagged →
       detect_fillers text = classify_tagged tagged).
Proof.
  split_and!; [| | | |intros text tokens; apply detect_fillers_primary].
  - apply classify_tagged_classified.
  - intros cs fs Hc.
    pose proof (classify_tagged_classified tagged) as Hc'.
    destruct (classified_det _ _ _ _ _ _ _ _ _ Hc' Hc) as [Hcs Hfs].
    destruct (classify_tagged tagged). simpl in *. by subst.
  - simpl.
    destruct (fold_last_token fst (λ wt, lower wt.1) detect_step
                (λ last wt, primary_is_filler last (lower wt.1) wt.2)
                detect_step_eq tagged loop_init) as (ys & Hcl & Hl).
    { by exists []. }
    rewrite Hl, Hcl, fmap_last. by destruct (last ys).
  - intros word tag. rewrite primary_is_filler_spec. unfold filler_rule.
    split; [|by left]. by intros [?|[? _]].
Qed.

(** C2: in both paths every token of the path's tokenizer is classified
    exactly once: the content tokens and the fillers together have the
    length of the token list, they are an interleaving of it (nothing
    invented, nothing dropped), and each list keeps the tokens' order. *)
Theorem classification_partitions_tokens (text : str) :
  partitions (simple_regex_fallback text).1 (simple_regex_fallback text).2
    (split text)
  ∧ (∀ tokens tagged,
       word_tokenize text = Ok tokens → pos_tag tokens = Ok tagged →
       tagged.*1 = tokens →
       partitions (detect_fillers text).1 (detect_fillers text).2 tokens)
  ∧ (∀ e, detect_fillers_nltk text = Raise e →
       partitions (detect_fillers text).1 (detect_fillers text).2 (split text)).
Proof.
  split_and!.
  - apply interleave_partitions, fallback_interleave.
  - intros tokens tagged Ht Hp <-.
    rewrite (detect_fillers_primary _ _ _ Ht Hp).
    apply interleave_partitions, classify_tagged_interleave.
  - intros e He. rewrite (detect_fillers_raise _ _ He).
    apply interleave_partitions, fallback_interleave.
Qed.

(** C5, amended: the fallback decides on a key, the lowercased token
    with the characters ',.!?' stripped from both of its ends, and emits
    the token itself; a token is a filler exactly when its key is one of
    'um', 'uh', 'hmm', 'ah', 'er', or equals the key of the previous
    content token and is alphabetic. *)
Theorem fallback_classification_rule (text : str) :
  fallback_classified fallback_key None (split text)
    (simple_regex_fallback text).1 (simple_regex_fallback text).2
  ∧ (∀ cs fs, fallback_classified fallback_key None (split text) cs fs →
              simple_regex_fallback text = (cs, fs))
  ∧ (∀ word, stripped_of (u ",.!?") (lower word) (fallback_key word))
  ∧ FALLBACK_FILLERS = [u "um"; u "uh"; u "hmm"; u "ah"; u "er"]
  ∧ interleave (simple_regex_fallback text).1 (simple_regex_fallback text).2
      (split text).
Proof.
  split_and!.
  - apply fallback_classified_run.
  - intros cs fs Hc.
    pose proof (fallback_classified_run text) as Hc'.
    destruct (classified_det _ _ _ _ _ _ _ _ _ Hc' Hc) as [Hcs Hfs].
    destruct (simple_regex_fallback text). simpl in *. by subst.
  - intros word. apply strip_spec.
  - done.
  - apply fallback_interleave.
Qed.

Lemma fallback_all_content (text : str) :
  Forall (λ w, fallback_key w ∉ FALLBACK_FILLERS) (split text) →
  no_adjacent_repeats (fallback_key <$> split text) →
  simple_regex_fallback text = (split text, []).
Proof.
  intros Hl Hr. unfold simple_regex_fallback.
  destruct (fold_all_content id fallback_key
              (λ w, fallback_key w ∈ FALLBACK_FILLERS) fallback_step
              (λ last w, fallback_is_filler last (fallback_key w))
              ltac:(done) ltac:(intros; apply fallback_is_filler_spec)
              (split text) Hl Hr) as [-> ->].
  by rewrite list_fmap_id.
Qed.

(** C6: the fallback returns for every string: the empty string gives
    two empty lists, every text gives a classification of its tokens,
    tokens of punctuation only (empty key) are all content; and when the
    tagging path raises, [detect_fillers] returns what the fallback
    returns for the same text. *)
Theorem fallback_never_fails (text : str) :
  simple_regex_fallback [] = ([], [])
  ∧ (∃ cs fs, simple_regex_fallback text = (cs, fs)
              ∧ partitions cs fs (split text))
  ∧ (Forall (λ w, fallback_key w = []) (split text) →
     simple_regex_fallback text = (split text, []))
  ∧ (∀ e, word_tokenize text = Raise e →
          detect_fillers text = simple_regex_fallback text)
  ∧ (∀ tokens e, word_tokenize text = Ok tokens → pos_tag tokens = Raise e →
          detect_fillers text = simple_regex_fallback text)
  ∧ (∀ e, detect_fillers_nltk text = Raise e →
          detect_fillers text = simple_regex_fallback text).
Proof.
  split_and!.
  - done.
  - exists (simple_regex_fallback text).1, (simple_regex_fallback text).2.
    split; [by destruct (simple_regex_fallback text)|].
    apply interleave_partitions, fallback_interleave.
  - intros Hp. apply fallback_all_content.
    + eapply Forall_impl; [exact Hp|]. intros w -> Hin.
      apply existsb_eqb_elem_of in Hin. discriminate Hin.
    + intros i term Hi _. apply list_lookup_fmap_Some in Hi as (w & -> & Hw).
      eapply Forall_lookup_1 in Hp; [|exact Hw]. simpl in Hp. by rewrite Hp.
  - intros e He. apply (detect_fillers_raise _ e).
    unfold detect_fillers_nltk. by rewrite He.
  - intros tokens e Ht Hp. apply (detect_fillers_raise _ e).
    unfold detect_fillers_nltk. by rewrite Ht, Hp.
  - apply detect_fillers_raise.
Qed.

(** ** Script correction *)

Lemma correction_loop (tokens : list str) (st : list str * bool) :
  fold_left correction_step tokens st =
  (st.1 ++ (corrected_with correction_key <$> tokens),
   st.2 || existsb (λ token, dict_in (correction_key token) SCRIPT_CORRECTION_MAP)
             tokens).
Proof.
  revert st. induction tokens as [|token tokens IH]; intros [acc occurred]; simpl.
  - by rewrite app_nil_r, orb_false_r.
  - rewrite IH. unfold correction_step, corrected_with, dict_in, correction_key.
    destruct (dict_lookup (strip correction_punct token) SCRIPT_CORRECTION_MAP);
      simpl; rewrite <- app_assoc; [by rewrite orb_true_r | done].
Qed.

Lemma corrected_tokens_eq (text : str) :
  corrected_tokens text = corrected_with correction_key <$> split text.
Proof. unfold corrected_tokens. by rewrite correction_loop. Qed.

Lemma apply_script_correction_en_IN (text : str) :
  apply_script_correction text en_IN =
  if existsb (λ token, dict_in (correction_key token) SCRIPT_CORRECTION_MAP)
       (split text)
  then join (u " ") (corrected_tokens text)
  else text.
Proof.
  unfold apply_script_correction, corrected_tokens.
  change (json_eq_str en_IN (u "en-IN")) with true. simpl negb. cbv iota.
  by rewrite correction_loop.
Qed.

Lemma json_eq_str_spec (v : json) (s : str) :
  json_eq_str v s = true ↔ v = JStr s.
Proof.
  destruct v; simpl; try (split; [discriminate | congruence]).
  rewrite str_eqb_eq. split; congruence.
Qed.

Lemma en_IN_cases (v : json) : v = en_IN ∨ v ≠ en_IN.
Proof.
  destruct (json_eq_str v (u "en-IN")) eqn:Heq.
  - left. by apply json_eq_str_spec.
  - right. intros Hv. apply json_eq_str_spec in Hv. congruence.
Qed.

Lemma apply_script_correction_other (text : str) (context_lang : json) :
  context_lang ≠ en_IN → apply_script_correction text context_lang = text.
Proof.
  intros Hne. unfold apply_script_correction.
  destruct (json_eq_str context_lang (u "en-IN")) eqn:Heq; [|done].
  apply json_eq_str_spec in Heq. done.
Qed.

Lemma some_token_corrected (tokens : list str) :
  existsb (λ token, dict_in (correction_key token) SCRIPT_CORRECTION_MAP) tokens
    = true
  ↔ ∃ token, token ∈ tokens
             ∧ is_Some (dict_lookup (correction_key token) SCRIPT_CORRECTION_MAP).
Proof.
  rewrite existsb_exists. unfold dict_in.
  split; intros (token & Hin & Hk); exists token.
  - split; [by apply list_elem_of_In|].
    destruct (dict_lookup _ _); [by eexists | done].
  - split; [by apply list_elem_of_In|]. by destruct Hk as [? ->].
Qed.

(** C3, amended: under 'en-IN' the text is split on whitespace and each
    token is looked up by a key, the token with the characters '.,!?'
    and the danda stripped from both of its ends; a token whose key is in
    the map is replaced whole by the mapped value and any other token is
    kept as it is. *)
Theorem script_correction_tokens (text : str) :
  corrected_tokens text = corrected_with correction_key <$> split text
  ∧ (∀ token, stripped_of (u ".,!?।") token (correction_key token))
  ∧ apply_script_correction text en_IN =
    if existsb (λ token, dict_in (correction_key token) SCRIPT_CORRECTION_MAP)
         (split text)
    then join (u " ") (corrected_with correction_key <$> split text)
    else text.
Proof.
  split_and!.
  - apply corrected_tokens_eq.
  - intros token. apply strip_spec.
  - rewrite apply_script_correction_en_IN. by rewrite corrected_tokens_eq.
Qed.

(** C4: the script correction returns its input itself when the context
    is not 'en-IN' and when no token's key is in the map; the tokens are
    joined with single spaces when, and only when, some token was
    replaced. *)
Theorem script_correction_unchanged (text : str) (context_lang : json) :
  (context_lang ≠ JStr (u "en-IN") →
     apply_script_correction text context_lang = text)
  ∧ ((∀ token, token ∈ split text →
        dict_lookup (correction_key token) SCRIPT_CORRECTION_MAP = None) →
     apply_script_correction text context_lang = text)
  ∧ (context_lang = JStr (u "en-IN") →
     (∃ token, token ∈ split text
        ∧ is_Some (dict_lookup (correction_key token) SCRIPT_CORRECTION_MAP)) →
     apply_script_correction text context_lang =
       join (u " ") (corrected_tokens text))
  ∧ (apply_script_correction text context_lang ≠ text →
     context_lang = JStr (u "en-IN")
     ∧ ∃ token, token ∈ split text
        ∧ is_Some (dict_lookup (correction_key token) SCRIPT_CORRECTION_MAP)).
Proof.
  split_and!.
  - apply apply_script_correction_other.
  - intros Hnone.
    destruct (en_IN_cases context_lang) as [->|Hne];
      [|by apply apply_script_correction_other].
    rewrite apply_script_correction_en_IN.
    destruct (existsb _ (split text)) eqn:Hex; [|done].
    apply some_token_corrected in Hex as (token & Hin & [v Hv]).
    rewrite (Hnone token Hin) in Hv. done.
  - intros -> Hex. apply some_token_corrected in Hex.
    change (JStr (u "en-IN")) with en_IN.
    rewrite apply_script_correction_en_IN. by rewrite Hex.
  - intros Hchanged.
    destruct (en_IN_cases context_lang) as [->|Hne];
      [|by rewrite apply_script_correction_other in Hchanged].
    split; [done|]. apply some_token_corrected.
    rewrite apply_script_correction_en_IN in Hchanged.
    by destruct (existsb _ (split text)).
Qed.

(** ** The request handler *)

Lemma config_ok_get (fields : list (str * json)) :
  config_ok fields → ∃ cfg, dict_get fields (u "config") (JObj []) = JObj cfg.
Proof.
  unfold config_ok, dict_get.
  destruct (dict_lookup (u "config") fields) as [[]|]; try done; by eexists.
Qed.

(** The handler on a request object whose [config] is an object. *)
Lemma process_text_fields (fields cfg : list (str * json)) :
  dict_get fields (u "config") (JObj []) = JObj cfg →
  process_text (JObj fields) =
  let text := dict_get fields (u "text") (JStr []) in
  if negb (json_truthy text) then Respond 200%N empty_response
  else match text with
       | JStr text =>
         process_nonempty text (dict_get fields (u "language") en_IN)
           (dict_get cfg (u "action") (JStr (u "remove")))
       | _ => process_not_str text (dict_get fields (u "language") en_IN)
       end.
Proof. intros Hcfg. unfold process_text, py_get. by rewrite Hcfg. Qed.

Lemma process_text_str (fields cfg : list (str * json)) (text : str) :
  dict_lookup (u "text") fields = Some (JStr text) → text ≠ [] →
  dict_get fields (u "config") (JObj []) = JObj cfg →
  process_text (JObj fields) =
  process_nonempty text (dict_get fields (u "language") en_IN)
    (dict_get cfg (u "action") (JStr (u "remove"))).
Proof.
  intros Htext Hne Hcfg. rewrite (process_text_fields _ _ Hcfg).
  unfold dict_get at 1 2. rewrite Htext. by destruct text.
Qed.

Lemma process_text_falsy (fields : list (str * json)) :
  json_truthy (dict_get fields (u "text") (JStr [])) = false →
  config_ok fields →
  process_text (JObj fields) = Respond 200%N empty_response.
Proof.
  intros Hfalsy [cfg Hcfg]%config_ok_get.
  rewrite (process_text_fields _ _ Hcfg). simpl. by rewrite Hfalsy.
Qed.

Lemma process_nonempty_eq (text : str) (context_lang action : json) :
  let normalized := apply_script_correction text context_lang in
  process_nonempty text context_lang action =
  Respond 200%N
    (success_body
       (if json_eq_str action (u "remove") || json_eq_str action (u "mark")
        then reconstruct (detect_fillers normalized).1 else normalized)
       (detect_fillers normalized).2 normalized).
Proof.
  simpl. unfold process_nonempty, success_body.
  destruct (detect_fillers (apply_script_correction text context_lang)); simpl.
  by destruct (json_eq_str action (u "remove")),
              (json_eq_str action (u "mark")).
Qed.

(** C7: for a non-empty text, 'remove' and 'mark' both answer the
    reconstruction of the content tokens, 'preserve' answers the
    script-corrected text itself, and in all three the fillers of the
    classification are reported. *)
Theorem action_selects_processed_text
    (fields cfg : list (str * json)) (text : str) :
  dict_lookup (u "text") fields = Some (JStr text) → text ≠ [] →
  dict_get fields (u "config") (JObj []) = JObj cfg →
  let context_lang := dict_get fields (u "language") en_IN in
  let action := dict_get cfg (u "action") (JStr (u "remove")) in
  let normalized := apply_script_correction text context_lang in
  let reconstructed := reconstruct (detect_fillers normalized).1 in
  let fillers := (detect_fillers normalized).2 in
  (action = JStr (u "remove") ∨ action = JStr (u "mark") →
   process_text (JObj fields) =
     Respond 200%N (success_body reconstructed fillers normalized))
  ∧ (action = JStr (u "preserve") →
     process_text (JObj fields) =
       Respond 200%N (success_body normalized fillers normalized)).
Proof.
  intros Htext Hne Hcfg. simpl.
  rewrite (process_text_str _ _ _ Htext Hne Hcfg), process_nonempty_eq.
  split.
  - by intros [-> | ->].
  - by intros ->.
Qed.

(** C8: a request whose text is the empty string is answered with
    exactly [{"processed_text": "", "fillers": []}], whatever the script
    correction, the tagger and the detokenizer would do; the answer to a
    non-empty text names the list 'fillers_detected' instead. *)
Theorem empty_text_short_circuits (fields : list (str * json)) :
  config_ok fields →
  (dict_lookup (u "text") fields = Some (JStr []) →
   process_text (JObj fields) =
     Respond 200%N (JObj [(u "processed_text", JStr []); (u "fillers", JArr [])]))
  ∧ (∀ text, dict_lookup (u "text") fields = Some (JStr text) → text ≠ [] →
     ∃ processed fillers original,
       process_text (JObj fields) =
         Respond 200%N (JObj [(u "processed_text", JStr processed);
                              (u "fillers_detected", JArr fillers);
                              (u "original_text", JStr original)])).
Proof.
  intros Hcfg. split.
  - intros Htext. apply process_text_falsy; [|done].
    unfold dict_get. by rewrite Htext.
  - intros text Htext Hne. destruct (config_ok_get _ Hcfg) as [cfg Hc].
    rewrite (process_text_str _ _ _ Htext Hne Hc), process_nonempty_eq.
    by eexists _, _, _.
Qed.

(** C10: a request object without a 'text' field, or with a null one, is
    answered as one whose text is the empty string: status 200 and
    [{"processed_text": "", "fillers": []}]. *)
Theorem missing_text_is_empty_text (fields : list (str * json)) :
  dict_lookup (u "text") fields = None
  ∨ dict_lookup (u "text") fields = Some JNull →
  config_ok fields →
  process_text (JObj fields) =
    Respond 200%N (JObj [(u "processed_text", JStr []); (u "fillers", JArr [])])
  ∧ process_text (JObj fields) =
    process_text (JObj ((u "text", JStr []) :: fields)).
Proof.
  intros Htext Hcfg.
  assert (process_text (JObj fields) = Respond 200%N empty_response) as ->.
  { apply process_text_falsy; [|done].
    unfold dict_get. by destruct Htext as [-> | ->]. }
  split; [done|]. symmetry. by apply process_text_falsy.
Qed.

(** ** Texts without fillers *)

Lemma detect_fillers_nltk_tag_text (text : str) :
  detect_fillers_nltk text =
  match tag_text text with
  | Ok tagged => Ok (classify_tagged tagged)
  | Raise e => Raise e
  end.
Proof.
  unfold detect_fillers_nltk, tag_text. by destruct (word_tokenize text).
Qed.

Lemma classify_tagged_all_content (tagged : list (str * str)) :
  Forall (λ wt : str * str, wt.2 ≠ tag_UH) tagged →
  no_adjacent_repeats ((λ wt : str * str, lower wt.1) <$> tagged) →
  classify_tagged tagged = (tagged.*1, []).
Proof.
  intros Hl Hr. unfold classify_tagged.
  by destruct (fold_all_content fst (λ wt, lower wt.1) (λ wt, wt.2 = tag_UH)
                 detect_step
                 (λ last wt, primary_is_filler last (lower wt.1) wt.2)
                 detect_step_eq
                 ltac:(intros; apply primary_is_filler_spec)
                 tagged Hl Hr) as [-> ->].
Qed.

Lemma cleaned_no_fillers (text : str) :
  cleaned text → detect_fillers text = (path_tokens text, []).
Proof.
  unfold cleaned, path_tokens, detect_fillers.
  rewrite detect_fillers_nltk_tag_text.
  destruct (tag_text text) as [tagged|e]; intros [Hl Hr].
  - by apply classify_tagged_all_content.
  - by apply fallback_all_content.
Qed.

(** ** Texts that are their own reconstruction *)

Lemma split_from_token (cur tok rest : str) :
  Forall (λ c, isspace c = false) tok →
  split_from cur (tok ++ rest) = split_from (reverse tok ++ cur) rest.
Proof.
  revert cur. induction tok as [|c tok IH]; intros cur Hns; simpl; [done|].
  inversion Hns as [|? ? Hc Htok]; subst. rewrite Hc, IH by done.
  by rewrite reverse_cons, <- app_assoc.
Qed.

Lemma split_from_flush (cur : str) (rest : str) :
  cur ≠ [] →
  split_from cur (u " " ++ rest) = reverse cur :: split_from [] rest.
Proof. by destruct cur. Qed.

(** Tokens joined by single spaces split into the same tokens. *)
Lemma split_join (tokens : list str) :
  Forall (λ tok, tok ≠ [] ∧ Forall (λ c, isspace c = false) tok) tokens →
  split (join (u " ") tokens) = tokens.
Proof.
  unfold split. induction tokens as [|tok tokens IH]; intros Hp; [done|].
  inversion Hp as [|? ? [Hne Hns] Htokens]; subst.
  assert (reverse tok ++ [] ≠ []) as Hcur.
  { rewrite app_nil_r. intros Hr. apply Hne.
    by rewrite <- (reverse_involutive tok), Hr. }
  destruct tokens as [|tok2 tokens].
  - simpl. rewrite <- (app_nil_r tok) at 1. rewrite split_from_token by done.
    simpl. destruct (reverse tok ++ []) eqn:Hr; [done|].
    by rewrite <- Hr, app_nil_r, reverse_involutive.
  - change (join (u " ") (tok :: tok2 :: tokens))
      with (tok ++ u " " ++ join (u " ") (tok2 :: tokens)).
    rewrite split_from_token, split_from_flush by done.
    by rewrite IH, app_nil_r, reverse_involutive.
Qed.

(** With the tagger and the detokenizer unavailable, a text of tokens
    joined by single spaces is the reconstruction of its own tokens. *)
Lemma single_spaced_reconstructs (tokens : list str) :
  Forall (λ tok, tok ≠ [] ∧ Forall (λ c, isspace c = false) tok) tokens →
  (∃ e, tag_text (join (u " ") tokens) = Raise e) →
  (∃ e, detokenize tokens = Raise e) →
  reconstruct (path_tokens (join (u " ") tokens)) = join (u " ") tokens.
Proof.
  intros Hp [e He] [e' Hd]. unfold path_tokens, reconstruct.
  by rewrite He, split_join, Hd.
Qed.

End Properties.

(** * The model on concrete inputs *)

Section Examples.
#[local] Existing Instance Ascii7.unicode.

(** ** Literals and string functions *)

Example u_ascii : u "the Cat" = [116; 104; 101; 32; 67; 97; 116]%N.
Proof. reflexivity. Qed.

Example u_devanagari : u "स्टॉप" = [0x938; 0x94D; 0x91F; 0x949; 0x92A]%N.
Proof. reflexivity. Qed.

Example u_danda : u "।" = [0x964%N].
Proof. reflexivity. Qed.

Example split_irregular :
  split (u "  the   the
 cat ") = [u "the"; u "the"; u "cat"].
Proof. reflexivity. Qed.

Example strip_both_ends : strip (u ",.!?") (u "?!um.,") = u "um".
Proof. reflexivity. Qed.

Example rstrip_one_end : rstrip (u ",.!?") (u "?!um.,") = u "?!um".
Proof. reflexivity. Qed.

(** ** Script correction *)

Example correct_stop : apply_script_correction (u "स्टॉप") en_IN = u "stop".
Proof. vm_compute. reflexivity. Qed.

Example correct_other_context :
  apply_script_correction (u "स्टॉप") (JStr (u "hi-IN")) = u "स्टॉप".
Proof. vm_compute. reflexivity. Qed.

Example correct_sentence :
  apply_script_correction (u "प्ले   music।  ओके?") en_IN = u "play music। ok".
Proof. vm_compute. reflexivity. Qed.

Example correct_nothing :
  apply_script_correction (u "play   music ") en_IN = u "play   music ".
Proof. vm_compute. reflexivity. Qed.

(** ** Classification *)

Example fallback_vocabulary :
  simple_regex_fallback (u "uh hmm test") = ([u "test"], [u "uh"; u "hmm"]).
Proof. vm_compute. reflexivity. Qed.

Example fallback_repeat :
  simple_regex_fallback (u "the The, the cat") =
  ([u "the"; u "cat"], [u "The,"; u "the"]).
Proof. vm_compute. reflexivity. Qed.

Example fallback_numeric_repeat :
  simple_regex_fallback (u "5 5 is five") =
  ([u "5"; u "5"; u "is"; u "five"], []).
Proof. vm_compute. reflexivity. Qed.

Example fallback_punctuation :
  simple_regex_fallback (u "?! ... ,") = ([u "?!"; u "..."; u ","], []).
Proof. vm_compute. reflexivity. Qed.

Example primary_interjections :
  @detect_fillers _ Toy.nltk (u "um I think uh so") =
  ([u "I"; u "think"; u "so"], [u "um"; u "uh"]).
Proof. vm_compute. reflexivity. Qed.

Example primary_repeat_after_filler :
  @detect_fillers _ Toy.nltk (u "the uh the the cat") =
  ([u "the"; u "cat"], [u "uh"; u "the"; u "the"]).
Proof. vm_compute. reflexivity. Qed.

Example offline_uses_fallback :
  @detect_fillers _ Offline.nltk (u "uh hmm test") =
  ([u "test"], [u "uh"; u "hmm"]).
Proof. vm_compute. reflexivity. Qed.

(** ** Requests *)

Example remove_repeat :
  @process_text _ Toy.nltk (request (u "the the cat") "remove") =
  Respond 200%N (success_body (u "the cat") [u "the"] (u "the the cat")).
Proof. vm_compute. reflexivity. Qed.

Example preserve_repeat :
  @process_text _ Toy.nltk (request (u "the the cat") "preserve") =
  Respond 200%N (success_body (u "the the cat") [u "the"] (u "the the cat")).
Proof. vm_compute. reflexivity. Qed.

Example null_config_raises :
  @process_text _ Toy.nltk (JObj [(u "text", JStr []); (u "config", JNull)]) =
  Unhandled (AttributeError (u "NoneType") (u "get")).
Proof. vm_compute. reflexivity. Qed.

Example number_as_text :
  @process_text _ Toy.nltk (JObj [(u "text", JNum 5); (u "language", JStr (u "hi-IN"))]) =
  Respond 500%N
    (JObj [(u "error", JStr (u "'int' object has no attribute 'split'"))]).
Proof. vm_compute. reflexivity. Qed.

End Examples.

(** ** The theorems at concrete inputs *)

Lemma primary_classification_rule_witness :
  let text := u "the uh the the cat" in
  let tokens := [u "the"; u "uh"; u "the"; u "the"; u "cat"] in
  let tagged := [(u "the", u "NN"); (u "uh", u "UH"); (u "the", u "NN");
                 (u "the", u "NN"); (u "cat", u "NN")] in
  @word_tokenize Toy.nltk text = Ok tokens
  ∧ @pos_tag Toy.nltk tokens = Ok tagged
  ∧ @detect_fillers Ascii7.unicode Toy.nltk text =
    ([u "the"; u "cat"], [u "uh"; u "the"; u "the"]).
Proof.
  simpl. split_and!; [reflexivity..|].
  rewrite (proj2 (proj2 (proj2 (proj2
            (@primary_classification_rule Ascii7.unicode Toy.nltk
               [(u "the", u "NN"); (u "uh", u "UH"); (u "the", u "NN");
                (u "the", u "NN"); (u "cat", u "NN")]))))
            (u "the uh the the cat")
            [u "the"; u "uh"; u "the"; u "the"; u "cat"] eq_refl eq_refl).
  reflexivity.
Defined.

Lemma classification_partitions_tokens_witness :
  let text := u "um the the cat" in
  let tokens := [u "um"; u "the"; u "the"; u "cat"] in
  let tagged := [(u "um", u "UH"); (u "the", u "NN"); (u "the", u "NN");
                 (u "cat", u "NN")] in
  @word_tokenize Toy.nltk text = Ok tokens
  ∧ @pos_tag Toy.nltk tokens = Ok tagged
  ∧ tagged.*1 = tokens
  ∧ partitions (@detect_fillers Ascii7.unicode Toy.nltk text).1
      (@detect_fillers Ascii7.unicode Toy.nltk text).2 tokens.
Proof.
  simpl. split_and!; [reflexivity..|].
  apply (proj1 (proj2 (@classification_partitions_tokens Ascii7.unicode Toy.nltk
                         (u "um the the cat")))
           [u "um"; u "the"; u "the"; u "cat"]
           [(u "um", u "UH"); (u "the", u "NN"); (u "the", u "NN");
            (u "cat", u "NN")]); reflexivity.
Defined.

Lemma script_correction_unchanged_witness :
  JStr (u "hi-IN") ≠ JStr (u "en-IN")
  ∧ apply_script_correction (u "प्ले   music") (JStr (u "hi-IN")) = u "प्ले   music"
  ∧ apply_script_correction (u "प्ले   music") (JStr (u "en-IN")) =
    join (u " ") (corrected_tokens (u "प्ले   music")).
Proof.
  split_and!.
  - discriminate.
  - apply (proj1 (script_correction_unchanged (u "प्ले   music") (JStr (u "hi-IN")))).
    discriminate.
  - apply (proj1 (proj2 (proj2 (script_correction_unchanged (u "प्ले   music")
                                  (JStr (u "en-IN")))))).
    + reflexivity.
    + exists (u "प्ले"). split; [vm_compute; by left | by eexists].
Defined.

Lemma fallback_classification_rule_witness :
  @fallback_classified Ascii7.unicode (@fallback_key Ascii7.unicode) None
    (split (u "?um test")) [u "test"] [u "?um"]
  ∧ @simple_regex_fallback Ascii7.unicode (u "?um test") = ([u "test"], [u "?um"]).
Proof.
  assert (@fallback_classified Ascii7.unicode (@fallback_key Ascii7.unicode) None
            (split (u "?um test")) [u "test"] [u "?um"]) as Hc.
  { change (split (u "?um test")) with [u "?um"; u "test"].
    apply (classified_filler (T := str) id).
    - left. apply existsb_eqb_elem_of. reflexivity.
    - apply (classified_content (T := str) id).
      + intros [Hin | [Heq _]]; [|discriminate Heq].
        apply existsb_eqb_elem_of in Hin. discriminate Hin.
      + constructor. }
  split; [exact Hc|].
  exact (proj1 (proj2 (@fallback_classification_rule Ascii7.unicode (u "?um test")))
           [u "test"] [u "?um"] Hc).
Defined.

Lemma fallback_never_fails_witness :
  @word_tokenize Offline.nltk (u "uh hmm test") = Raise Offline.missing
  ∧ @detect_fillers Ascii7.unicode Offline.nltk (u "uh hmm test") =
    @simple_regex_fallback Ascii7.unicode (u "uh hmm test").
Proof.
  split; [reflexivity|].
  apply (proj1 (proj2 (proj2 (proj2
          (@fallback_never_fails Ascii7.unicode Offline.nltk (u "uh hmm test")))))
         Offline.missing).
  reflexivity.
Defined.

Lemma action_selects_processed_text_witness :
  let fields action :=
    [(u "text", JStr (u "the the cat")); (u "config", JObj [(u "action", JStr action)])] in
  @process_text Ascii7.unicode Toy.nltk (JObj (fields (u "mark"))) =
    Respond 200%N (success_body (u "the cat") [u "the"] (u "the the cat"))
  ∧ @process_text Ascii7.unicode Toy.nltk (JObj (fields (u "preserve"))) =
    Respond 200%N (success_body (u "the the cat") [u "the"] (u "the the cat")).
Proof.
  simpl. split.
  - apply (proj1 (@action_selects_processed_text Ascii7.unicode Toy.nltk
             [(u "text", JStr (u "the the cat"));
              (u "config", JObj [(u "action", JStr (u "mark"))])]
             [(u "action", JStr (u "mark"))] (u "the the cat")
             eq_refl ltac:(discriminate) eq_refl)).
    right. reflexivity.
  - apply (proj2 (@action_selects_processed_text Ascii7.unicode Toy.nltk
             [(u "text", JStr (u "the the cat"));
              (u "config", JObj [(u "action", JStr (u "preserve"))])]
             [(u "action", JStr (u "preserve"))] (u "the the cat")
             eq_refl ltac:(discriminate) eq_refl)).
    reflexivity.
Defined.

Lemma empty_text_short_circuits_witness :
  config_ok [(u "text", JStr []); (u "language", JStr (u "en-IN"))]
  ∧ @process_text Ascii7.unicode Offline.nltk
      (JObj [(u "text", JStr []); (u "language", JStr (u "en-IN"))]) =
    Respond 200%N (JObj [(u "processed_text", JStr []); (u "fillers", JArr [])]).
Proof.
  split; [exact I|].
  apply (proj1 (@empty_text_short_circuits Ascii7.unicode Offline.nltk
                  [(u "text", JStr []); (u "language", JStr (u "en-IN"))] I)).
  reflexivity.
Defined.

Lemma missing_text_is_empty_text_witness :
  config_ok [(u "config", JObj [(u "action", JStr (u "mark"))])]
  ∧ @process_text Ascii7.unicode Toy.nltk
      (JObj [(u "config", JObj [(u "action", JStr (u "mark"))])]) =
    Respond 200%N (JObj [(u "processed_text", JStr []); (u "fillers", JArr [])])
  ∧ config_ok [(u "text", JNull)]
  ∧ @process_text Ascii7.unicode Toy.nltk (JObj [(u "text", JNull)]) =
    Respond 200%N (JObj [(u "processed_text", JStr []); (u "fillers", JArr [])]).
Proof.
  split_and!; [exact I | | exact I |].
  - apply (@missing_text_is_empty_text Ascii7.unicode Toy.nltk
             [(u "config", JObj [(u "action", JStr (u "mark"))])]);
      [left; reflexivity | exact I].
  - apply (@missing_text_is_empty_text Ascii7.unicode Toy.nltk [(u "text", JNull)]);
      [right; reflexivity | exact I].
Defined.

(** ** Where the code departs from the specification *)

(** C3: a token with punctuation in front is looked up without it. The
    token '.रुको' has itself as its trailing-stripped key, which the map
    does not hold, and yet it is replaced. *)
Lemma leading_punctuation_is_corrected :
  corrected_tokens (u ".रुको") ≠
    corrected_with trailing_correction_key <$> split (u ".रुको")
  ∧ corrected_with trailing_correction_key <$> split (u ".रुको") = [u ".रुको"]
  ∧ apply_script_correction (u ".रुको") en_IN = u "stop".
Proof. split_and!; [vm_compute; discriminate | reflexivity | reflexivity]. Qed.

(** C5: a token with punctuation in front is compared without it. The
    token '?um' has the trailing-stripped key '?um', neither in the
    vocabulary nor a repeat, and yet it is a filler. *)
Lemma leading_punctuation_is_filler :
  @simple_regex_fallback Ascii7.unicode (u "?um") = ([], [u "?um"])
  ∧ @trailing_fallback_key Ascii7.unicode (u "?um") = u "?um"
  ∧ ¬ @filler_rule Ascii7.unicode
        (@trailing_fallback_key Ascii7.unicode (u "?um") ∈ FALLBACK_FILLERS)
        None (@trailing_fallback_key Ascii7.unicode (u "?um"))
  ∧ ¬ @fallback_classified Ascii7.unicode (@trailing_fallback_key Ascii7.unicode)
        None (split (u "?um"))
        (@simple_regex_fallback Ascii7.unicode (u "?um")).1
        (@simple_regex_fallback Ascii7.unicode (u "?um")).2.
Proof.
  assert (¬ @filler_rule Ascii7.unicode
            (@trailing_fallback_key Ascii7.unicode (u "?um") ∈ FALLBACK_FILLERS)
            None (@trailing_fallback_key Ascii7.unicode (u "?um"))) as Hrule.
  { intros [Hin | [Heq _]]; [|discriminate Heq].
    apply existsb_eqb_elem_of in Hin. vm_compute in Hin. discriminate Hin. }
  split_and!; [reflexivity | reflexivity | exact Hrule |].
  change (split (u "?um")) with [u "?um"].
  change (@simple_regex_fallback Ascii7.unicode (u "?um")) with
    (@nil str, [u "?um"]).
  intros Hc. inversion Hc; subst. contradiction.
Qed.

(** * Further properties of the code *)

(** ** Splitting *)

Lemma split_from_proper (cur s : str) :
  Forall (λ c, isspace c = false) cur →
  Forall proper_token (split_from cur s).
Proof.
  revert cur. induction s as [|c s IH]; intros cur Hcur; cbn [split_from].
  - destruct cur as [|c0 cur0] eqn:Hc; [constructor|].
    constructor; [|constructor]. split.
    + intros Hr. apply (f_equal reverse) in Hr.
      rewrite reverse_involutive in Hr. discriminate Hr.
    + by apply Forall_reverse.
  - destruct (isspace c) eqn:Hsp.
    + destruct cur as [|c0 cur0] eqn:Hc; [by apply IH|].
      constructor; [|by apply IH]. split.
      * intros Hr. apply (f_equal reverse) in Hr.
        rewrite reverse_involutive in Hr. discriminate Hr.
      * by apply Forall_reverse.
    + apply IH. by constructor.
Qed.

Lemma split_proper (text : str) : Forall proper_token (split text).
Proof. apply split_from_proper. constructor. Qed.

Lemma split_from_chars (cur s tok : str) (c : char) :
  tok ∈ split_from cur s → c ∈ tok → c ∈ cur ∨ c ∈ s.
Proof.
  revert cur. induction s as [|c0 s IH]; intros cur Htok Hc; cbn [split_from] in Htok.
  - destruct cur as [|c1 cur1] eqn:Hcur; [by apply elem_of_nil in Htok|].
    apply list_elem_of_singleton in Htok. subst tok.
    left. by rewrite elem_of_reverse in Hc.
  - destruct (isspace c0).
    + destruct cur as [|c1 cur1] eqn:Hcur.
      * destruct (IH [] Htok Hc) as [Hin|Hin]; [by apply elem_of_nil in Hin|].
        right. by apply elem_of_cons; right.
      * apply elem_of_cons in Htok as [->|Htok].
        -- left. by rewrite elem_of_reverse in Hc.
        -- destruct (IH [] Htok Hc) as [Hin|Hin]; [by apply elem_of_nil in Hin|].
           right. by apply elem_of_cons; right.
    + destruct (IH (c0 :: cur) Htok Hc) as [Hin|Hin].
      * apply elem_of_cons in Hin as [->|Hin]; [right; by left | by left].
      * right. by apply elem_of_cons; right.
Qed.

Lemma split_chars (text tok : str) (c : char) :
  tok ∈ split text → c ∈ tok → c ∈ text.
Proof.
  intros Htok Hc. destruct (split_from_chars [] text tok c Htok Hc) as [Hin|Hin];
    [by apply elem_of_nil in Hin | done].
Qed.

Lemma split_whitespace (text : str) :
  Forall (λ c, isspace c = true) text → split text = [].
Proof.
  unfold split. induction 1 as [|c s Hc _ IH]; simpl; [done|]. by rewrite Hc.
Qed.

Lemma strip_chars (chars token : str) (c : char) :
  c ∈ strip chars token → c ∈ token.
Proof.
  destruct (strip_spec chars token) as (pre & post & Heq & _).
  intros Hc. rewrite Heq. rewrite !elem_of_app. by right; left.
Qed.

Lemma split_join_proper (tokens : list str) :
  Forall proper_token tokens → split (join (u " ") tokens) = tokens.
Proof. apply split_join. Qed.

Lemma join_nil_inv (tokens : list str) :
  Forall proper_token tokens → join (u " ") tokens = [] → tokens = [].
Proof.
  intros Hp Hj. destruct tokens as [|tok tokens]; [done|].
  inversion Hp as [|? ? [Hne _] _]; subst.
  destruct tokens; simpl in Hj; [done|].
  by destruct tok.
Qed.

(** ** Script correction *)

Lemma dict_lookup_Some {V : Type} (key : str) (d : list (str * V)) (v : V) :
  dict_lookup key d = Some v → (key, v) ∈ d.
Proof.
  induction d as [|[k w] d IH]; simpl; [done|].
  destruct (eqb k key) eqn:Hk.
  - apply str_eqb_eq in Hk. intros [= ->]. subst. by left.
  - intros Hl. right. by apply IH.
Qed.

(** What the table itself guarantees: every value is a token that the
    table does not correct again, and every key starts in the Devanagari
    block. *)
Lemma SCRIPT_CORRECTION_MAP_entries :
  Forall (λ kv : str * str,
            proper_token kv.2
            ∧ dict_lookup (correction_key kv.2) SCRIPT_CORRECTION_MAP = None
            ∧ ∃ c, head kv.1 = Some c ∧ is_devanagari c = true)
         SCRIPT_CORRECTION_MAP.
Proof.
  unfold SCRIPT_CORRECTION_MAP at 2.
  repeat (constructor;
          [split_and!;
           [split; [discriminate | repeat constructor]
           | vm_compute; reflexivity
           | eexists; split; reflexivity]
          |]).
  constructor.
Qed.

Lemma corrected_with_fixed (token : str) :
  dict_lookup (correction_key (corrected_with correction_key token))
    SCRIPT_CORRECTION_MAP = None.
Proof.
  unfold corrected_with.
  destruct (dict_lookup (correction_key token) SCRIPT_CORRECTION_MAP)
    as [latin|] eqn:Hl; [|done].
  apply dict_lookup_Some in Hl.
  pose proof SCRIPT_CORRECTION_MAP_entries as Hm.
  rewrite Forall_forall in Hm. by destruct (Hm _ Hl) as (_ & Hnone & _).
Qed.

Lemma corrected_with_proper (token : str) :
  proper_token token → proper_token (corrected_with correction_key token).
Proof.
  intros Hp. unfold corrected_with.
  destruct (dict_lookup (correction_key token) SCRIPT_CORRECTION_MAP)
    as [latin|] eqn:Hl; [|done].
  apply dict_lookup_Some in Hl.
  pose proof SCRIPT_CORRECTION_MAP_entries as Hm.
  rewrite Forall_forall in Hm. by destruct (Hm _ Hl) as (Hv & _).
Qed.

Lemma corrected_tokens_proper (text : str) :
  Forall proper_token (corrected_tokens text).
Proof.
  rewrite corrected_tokens_eq. apply Forall_fmap.
  eapply Forall_impl; [apply split_proper|]. apply corrected_with_proper.
Qed.

Lemma corrected_tokens_no_match (tokens : list str) :
  existsb (λ token, dict_in (correction_key token) SCRIPT_CORRECTION_MAP) tokens
    = false →
  corrected_with correction_key <$> tokens = tokens.
Proof.
  induction tokens as [|token tokens IH]; [done|].
  rewrite fmap_cons. cbn [existsb].
  intros [Ht Hts]%orb_false_iff. rewrite IH by done. f_equal.
  unfold corrected_with, dict_in in *.
  by destruct (dict_lookup (correction_key token) SCRIPT_CORRECTION_MAP).
Qed.

(** The tokens of the corrected text are the corrected tokens. *)
Lemma split_apply_script_correction (text : str) :
  split (apply_script_correction text en_IN) = corrected_tokens text.
Proof.
  rewrite apply_script_correction_en_IN.
  destruct (existsb _ (split text)) eqn:Hex.
  - apply split_join_proper, corrected_tokens_proper.
  - rewrite corrected_tokens_eq. symmetry. by apply corrected_tokens_no_match.
Qed.

Lemma apply_script_correction_no_match (text : str) (context_lang : json) :
  (∀ token, token ∈ split text →
     dict_lookup (correction_key token) SCRIPT_CORRECTION_MAP = None) →
  apply_script_correction text context_lang = text.
Proof.
  intros Hnone.
  destruct (en_IN_cases context_lang) as [->|Hne];
    [|by apply apply_script_correction_other].
  rewrite apply_script_correction_en_IN.
  destruct (existsb _ (split text)) eqn:Hex; [|done].
  apply some_token_corrected in Hex as (token & Hin & [v Hv]).
  rewrite (Hnone token Hin) in Hv. done.
Qed.

Lemma corrected_text_no_match (text : str) (token : str) :
  token ∈ split (apply_script_correction text en_IN) →
  dict_lookup (correction_key token) SCRIPT_CORRECTION_MAP = None.
Proof.
  rewrite split_apply_script_correction, corrected_tokens_eq.
  intros (tok & -> & _)%list_elem_of_fmap. apply corrected_with_fixed.
Qed.

(** X1: correcting twice is correcting once. *)
Theorem script_correction_idempotent (text : str) (context_lang : json) :
  apply_script_correction (apply_script_correction text context_lang)
    context_lang =
  apply_script_correction text context_lang.
Proof.
  destruct (en_IN_cases context_lang) as [->|Hne].
  - apply apply_script_correction_no_match. apply corrected_text_no_match.
  - by rewrite !apply_script_correction_other.
Qed.

(** X2: the correction keeps the token structure: under 'en-IN' the
    tokens of the result are the corrected tokens, one for each token of
    the input, and under any context the number of tokens is the same. *)
Theorem script_correction_keeps_tokens (text : str) (context_lang : json) :
  split (apply_script_correction text en_IN) =
    corrected_with correction_key <$> split text
  ∧ length (split (apply_script_correction text context_lang)) =
    length (split text).
Proof.
  split.
  - by rewrite split_apply_script_correction, corrected_tokens_eq.
  - destruct (en_IN_cases context_lang) as [->|Hne].
    + by rewrite split_apply_script_correction, corrected_tokens_eq, length_fmap.
    + by rewrite apply_script_correction_other.
Qed.

(** X3: after the correction under 'en-IN' no token is left that the
    table would replace. *)
Theorem corrected_text_has_no_map_token (text token : str) :
  token ∈ split (apply_script_correction text en_IN) →
  dict_lookup (strip (u ".,!?।") token) SCRIPT_CORRECTION_MAP = None.
Proof. apply corrected_text_no_match. Qed.

Lemma devanagari_in_matched_token (token : str) :
  is_Some (dict_lookup (correction_key token) SCRIPT_CORRECTION_MAP) →
  ∃ c, c ∈ token ∧ is_devanagari c = true.
Proof.
  intros [latin Hl]. apply dict_lookup_Some in Hl.
  pose proof SCRIPT_CORRECTION_MAP_entries as Hm.
  rewrite Forall_forall in Hm.
  destruct (Hm _ Hl) as (_ & _ & c & Hhd & Hdv). simpl in Hhd.
  exists c. split; [|done].
  apply (strip_chars correction_punct). fold (correction_key token).
  destruct (correction_key token); simplify_eq/=. by left.
Qed.

(** X4: a text without a Devanagari code point is returned as it is,
    whitespace included, under every context. *)
Theorem script_correction_leaves_other_scripts
    (text : str) (context_lang : json) :
  Forall (λ c, is_devanagari c = false) text →
  apply_script_correction text context_lang = text.
Proof.
  intros Hnd. apply apply_script_correction_no_match. intros token Hin.
  destruct (dict_lookup (correction_key token) SCRIPT_CORRECTION_MAP) eqn:Hl;
    [|done].
  destruct (devanagari_in_matched_token token) as (c & Hc & Hdv);
    [by rewrite Hl|].
  rewrite Forall_forall in Hnd.
  rewrite (Hnd c (split_chars _ _ _ Hin Hc)) in Hdv. done.
Qed.

(** ** What the classification loops leave in their two lists *)

Section LoopOutput.
Context `{Unicode}.
Context {T : Type} (word_of term_of : T → str) (listed : T → Prop).

(** The content tokens are tokens of the input, in order, none under
    rule 1 and no two neighbours a repeat; every filler is a token under
    rule 1, or alphabetic with the term of [last] or of a content token. *)
Lemma classified_output last xs cs fs :
  classified word_of term_of listed last xs cs fs →
  ∃ ys, sublist ys xs ∧ cs = word_of <$> ys
        ∧ Forall (λ y, ¬ listed y) ys
        ∧ no_adjacent_repeats (term_of <$> ys)
        ∧ (∀ y, head ys = Some y → last = Some (term_of y) →
                isalpha (term_of y) = false)
        ∧ Forall (λ w, ∃ x, x ∈ xs ∧ w = word_of x
                    ∧ (listed x
                       ∨ (isalpha (term_of x) = true
                          ∧ (last = Some (term_of x)
                             ∨ term_of x ∈ term_of <$> ys)))) fs.
Proof.
  induction 1 as [last|last x rest cs fs Hrule _ IH|last x rest cs fs Hrule _ IH].
  - exists []. split_and!; try done; try constructor.
  - destruct IH as (ys & Hsub & Hcs & Hnl & Hnr & Hhd & Hfs).
    exists ys. split_and!; try done; [by constructor|].
    constructor.
    + exists x. split_and!; [by left | done |].
      destruct Hrule as [Hl|[Heq Ha]]; [by left | right; by split; [|left]].
    + eapply Forall_impl; [exact Hfs|]. intros w (x' & Hin & Hw & Hr).
      exists x'. split_and!; [by right | done | done].
  - destruct IH as (ys & Hsub & Hcs & Hnl & Hnr & Hhd & Hfs).
    exists (x :: ys). split_and!.
    + by constructor.
    + by rewrite Hcs.
    + constructor; [|done]. intros Hl. apply Hrule. by left.
    + intros [|i] term Hi HSi.
      * simpl in Hi. injection Hi as <-.
        destruct ys as [|y ys]; [done|]. simpl in HSi. injection HSi as HSi.
        rewrite <- HSi. apply (Hhd y eq_refl). by rewrite HSi.
      * by apply (Hnr i term).
    + intros y [= <-] Hlast.
      destruct (isalpha (term_of x)) eqn:Ha; [|done].
      exfalso. apply Hrule. by right.
    + eapply Forall_impl; [exact Hfs|]. intros w (x' & Hin & Hw & Hr).
      exists x'. split_and!; [by right | done |].
      destruct Hr as [Hl|[Ha [Heq|Hin']]]; [by left | |].
      * right. split; [done|]. right. injection Heq as Heq.
        rewrite fmap_cons, <- Heq. by left.
      * right. split; [done|]. right. rewrite fmap_cons. by right.
Qed.

End LoopOutput.

Section ClassifierOutput.
Context `{Unicode}.

Lemma fallback_output (text : str) :
  let cs := (simple_regex_fallback text).1 in
  let fs := (simple_regex_fallback text).2 in
  sublist cs (split text)
  ∧ Forall (λ w, fallback_key w ∉ FALLBACK_FILLERS) cs
  ∧ no_adjacent_repeats (fallback_key <$> cs)
  ∧ Forall (λ w, w ∈ split text
              ∧ (fallback_key w ∈ FALLBACK_FILLERS
                 ∨ (isalpha (fallback_key w) = true
                    ∧ ∃ c, c ∈ cs ∧ fallback_key c = fallback_key w))) fs.
Proof.
  cbv zeta.
  destruct (classified_output id fallback_key _ _ _ _ _
              (fallback_classified_run text))
    as (ys & Hsub & Hcs & Hnl & Hnr & _ & Hfs).
  rewrite list_fmap_id in Hcs. rewrite Hcs. split_and!; try done.
  eapply Forall_impl; [exact Hfs|]. intros w (x & Hin & -> & Hr).
  split; [done|]. destruct Hr as [Hl|[Ha [Heq|Hin']]]; [by left|done|].
  right. split; [done|].
  apply list_elem_of_fmap in Hin' as (c & Hc & Hcin). by exists c.
Qed.

(** X5: the content tokens of the fallback hold no word of the filler
    vocabulary and no two neighbours with the same alphabetic key. *)
Theorem fallback_content_has_no_filler (text : str) :
  Forall (λ w, fallback_key w ∉ FALLBACK_FILLERS) (simple_regex_fallback text).1
  ∧ no_adjacent_repeats (fallback_key <$> (simple_regex_fallback text).1).
Proof. by destruct (fallback_output text) as (_ & Hnl & Hnr & _). Qed.

(** X6: every filler of the fallback is a token of the text whose key
    is in the vocabulary, or is alphabetic and is the key of a content
    token; numbers and punctuation are never fillers. *)
Theorem fallback_fillers_are_words (text : str) :
  Forall (λ w, w ∈ split text
             ∧ (fallback_key w ∈ FALLBACK_FILLERS
                ∨ (isalpha (fallback_key w) = true
                   ∧ ∃ c, c ∈ (simple_regex_fallback text).1
                          ∧ fallback_key c = fallback_key w)))
    (simple_regex_fallback text).2.
Proof. by destruct (fallback_output text) as (_ & _ & _ & Hfs). Qed.

Lemma fallback_content_proper (text : str) :
  Forall proper_token (simple_regex_fallback text).1.
Proof.
  destruct (fallback_output text) as (Hsub & _).
  apply Forall_forall. intros w Hw.
  pose proof (split_proper text) as Hp. rewrite Forall_forall in Hp.
  apply Hp. by eapply elem_of_sublist.
Qed.

Lemma fallback_rejoined (text : str) :
  simple_regex_fallback (join (u " ") (simple_regex_fallback text).1) =
  ((simple_regex_fallback text).1, []).
Proof.
  destruct (fallback_output text) as (_ & Hnl & Hnr & _).
  pose proof (split_join_proper _ (fallback_content_proper text)) as Hsplit.
  rewrite <- Hsplit at 2. apply fallback_all_content; by rewrite Hsplit.
Qed.

(** X7: the fallback finds nothing more in its own output: the content
    tokens joined by spaces are classified as the same content tokens
    and no filler. *)
Theorem fallback_idempotent (text : str) :
  simple_regex_fallback (join (u " ") (simple_regex_fallback text).1) =
  ((simple_regex_fallback text).1, []).
Proof. apply fallback_rejoined. Qed.

Lemma primary_output (tagged : list (str * str)) :
  ∃ contents,
    sublist contents tagged
    ∧ (classify_tagged tagged).1 = contents.*1
    ∧ Forall (λ wt : str * str, wt.2 ≠ tag_UH) contents
    ∧ no_adjacent_repeats ((λ wt : str * str, lower wt.1) <$> contents)
    ∧ Forall (λ w, ∃ tag, (w, tag) ∈ tagged
                ∧ (tag = tag_UH
                   ∨ (isalpha (lower w) = true
                      ∧ ∃ c, c ∈ (classify_tagged tagged).1
                             ∧ lower c = lower w)))
        (classify_tagged tagged).2.
Proof.
  destruct (classified_output fst (λ wt, lower wt.1) (λ wt, wt.2 = tag_UH)
              _ _ _ _ (classify_tagged_classified tagged))
    as (ys & Hsub & Hcs & Hnl & Hnr & _ & Hfs).
  exists ys. split_and!; try done.
  eapply Forall_impl; [exact Hfs|]. intros w ([w' tag] & Hin & -> & Hr).
  exists tag. split; [done|]. simpl in Hr.
  destruct Hr as [Hl|[Ha [Heq|Hin']]]; [by left|done|].
  right. split; [done|].
  apply list_elem_of_fmap in Hin' as ([c ctag] & Hc & Hcin). simpl in Hc.
  exists c. split; [|done]. rewrite Hcs.
  apply list_elem_of_fmap. by exists (c, ctag).
Qed.

(** X8: the content tokens of the primary classifier are tagged tokens
    of the input, in order, none tagged 'UH' and no two neighbours with
    the same alphabetic lowercase form; classified again with their tags
    they are all content. *)
Theorem primary_content_has_no_filler (tagged : list (str * str)) :
  ∃ contents,
    sublist contents tagged
    ∧ (classify_tagged tagged).1 = contents.*1
    ∧ Forall (λ wt : str * str, wt.2 ≠ tag_UH) contents
    ∧ no_adjacent_repeats ((λ wt : str * str, lower wt.1) <$> contents)
    ∧ classify_tagged contents = ((classify_tagged tagged).1, []).
Proof.
  destruct (primary_output tagged) as (ys & Hsub & Hcs & Hnl & Hnr & _).
  exists ys. split_and!; try done.
  rewrite Hcs. by apply classify_tagged_all_content.
Qed.

(** X9: every filler of the primary classifier is a token tagged 'UH',
    or a token whose lowercase form is alphabetic and is the lowercase
    form of a content token. *)
Theorem primary_fillers_are_tagged_or_repeats (tagged : list (str * str)) :
  Forall (λ w, ∃ tag, (w, tag) ∈ tagged
             ∧ (tag = tag_UH
                ∨ (isalpha (lower w) = true
                   ∧ ∃ c, c ∈ (classify_tagged tagged).1 ∧ lower c = lower w)))
    (classify_tagged tagged).2.
Proof. by destruct (primary_output tagged) as (ys & _ & _ & _ & _ & Hfs). Qed.

End ClassifierOutput.

(** ** The handler on requests of every shape *)

Section Handler.
Context `{Unicode} `{Nltk}.

Lemma config_not_object (fields : list (str * json)) (config : json) :
  dict_lookup (u "config") fields = Some config → is_object config = false →
  process_text (JObj fields) =
  Unhandled (AttributeError (type_name config) (u "get")).
Proof.
  intros Hc Hno.
  assert (dict_get fields (u "config") (JObj []) = config) as Hget.
  { unfold dict_get. by rewrite Hc. }
  unfold process_text, py_get. rewrite Hget. by destruct config.
Qed.

(** X10: a body that is not an object, and a [config] that is present
    but not an object, make the handler raise [AttributeError] for the
    missing [get] before the text is looked at, an empty text included. *)
Theorem malformed_request_raises (data : json) :
  (is_object data = false →
   process_text data = Unhandled (AttributeError (type_name data) (u "get")))
  ∧ (∀ fields config,
       data = JObj fields →
       dict_lookup (u "config") fields = Some config →
       is_object config = false →
       process_text data =
         Unhandled (AttributeError (type_name config) (u "get"))).
Proof.
  split.
  - by destruct data.
  - intros fields config -> Hc Hno. by apply config_not_object.
Qed.

(** X11: every falsy text, the values [0], [false], [[]] and [{}] as
    well as [null] and the empty string, is answered by the empty-input
    body with status 200. *)
Theorem falsy_text_short_circuits (fields : list (str * json)) (text : json) :
  dict_lookup (u "text") fields = Some text →
  json_truthy text = false →
  config_ok fields →
  process_text (JObj fields) =
    Respond 200%N (JObj [(u "processed_text", JStr []); (u "fillers", JArr [])]).
Proof.
  intros Ht Hf Hcfg. apply process_text_falsy; [|done].
  unfold dict_get. by rewrite Ht.
Qed.

(** X12: an action that is neither 'remove' nor 'mark', of any JSON
    type, is handled as 'preserve': the script-corrected text is the
    processed text, and the fillers are still reported. *)
Theorem unknown_action_preserves
    (fields cfg : list (str * json)) (text : str) :
  dict_lookup (u "text") fields = Some (JStr text) → text ≠ [] →
  dict_get fields (u "config") (JObj []) = JObj cfg →
  let action := dict_get cfg (u "action") (JStr (u "remove")) in
  let normalized :=
    apply_script_correction text (dict_get fields (u "language") en_IN) in
  action ≠ JStr (u "remove") → action ≠ JStr (u "mark") →
  process_text (JObj fields) =
    Respond 200%N
      (success_body normalized (detect_fillers normalized).2 normalized).
Proof.
  intros Htext Hne Hcfg. cbv zeta. intros Hr Hm.
  rewrite (process_text_str _ _ _ Htext Hne Hcfg), process_nonempty_eq.
  cbv zeta.
  destruct (json_eq_str _ (u "remove")) eqn:Her;
    [by apply json_eq_str_spec in Her|].
  destruct (json_eq_str _ (u "mark")) eqn:Hem;
    [by apply json_eq_str_spec in Hem|].
  done.
Qed.

(** X13: the defaults.  A request without 'language' and without
    'config' is answered as the same request with language 'en-IN' and
    action 'remove'. *)
Theorem missing_fields_take_defaults (fields : list (str * json)) :
  dict_lookup (u "language") fields = None →
  dict_lookup (u "config") fields = None →
  process_text (JObj fields) =
  process_text
    (JObj ((u "language", JStr (u "en-IN"))
           :: (u "config", JObj [(u "action", JStr (u "remove"))])
           :: fields)).
Proof.
  intros Hl Hc. unfold process_text, py_get, dict_get.
  cbn [dict_lookup]. rewrite Hl, Hc.
  change (eqb (u "language") (u "text")) with false.
  change (eqb (u "config") (u "text")) with false.
  change (eqb (u "language") (u "config")) with false.
  change (eqb (u "config") (u "config")) with true.
  change (eqb (u "language") (u "language")) with true.
  cbv iota. cbn [dict_lookup].
  change (eqb (u "action") (u "action")) with true.
  done.
Qed.

(** X18: a 'language' that is present and is not the string 'en-IN'
    (another tag, another case, [null], a number) switches the script
    correction off: the text is classified and reported as it was
    sent. *)
Theorem other_language_disables_correction
    (fields cfg : list (str * json)) (text : str) (language : json) :
  dict_lookup (u "text") fields = Some (JStr text) → text ≠ [] →
  dict_get fields (u "config") (JObj []) = JObj cfg →
  dict_lookup (u "language") fields = Some language →
  language ≠ JStr (u "en-IN") →
  let action := dict_get cfg (u "action") (JStr (u "remove")) in
  process_text (JObj fields) =
    Respond 200%N
      (success_body
         (if json_eq_str action (u "remove") || json_eq_str action (u "mark")
          then reconstruct (detect_fillers text).1 else text)
         (detect_fillers text).2 text).
Proof.
  intros Htext Hne Hcfg Hlang Hother. cbv zeta.
  rewrite (process_text_str _ _ _ Htext Hne Hcfg), process_nonempty_eq.
  cbv zeta.
  assert (dict_get fields (u "language") en_IN = language) as ->.
  { unfold dict_get. by rewrite Hlang. }
  by rewrite (apply_script_correction_other _ _ Hother).
Qed.

Lemma detect_fillers_fallback (text : str) (e : exn) :
  tag_text text = Raise e → detect_fillers text = simple_regex_fallback text.
Proof.
  intros He. apply (detect_fillers_raise _ e).
  by rewrite detect_fillers_nltk_tag_text, He.
Qed.

Lemma apply_script_correction_whitespace (text : str) (context_lang : json) :
  Forall (λ c, isspace c = true) text →
  apply_script_correction text context_lang = text.
Proof.
  intros Hw. apply apply_script_correction_no_match.
  rewrite (split_whitespace _ Hw). intros token Hin. by apply elem_of_nil in Hin.
Qed.

(** X14: a text of whitespace only is not empty, so it is not
    short-circuited: it is kept as the original text, no token and no
    filler is found, and 'remove' answers the reconstruction of no token,
    the empty string when the detokenizer is unavailable. *)
Theorem whitespace_text_has_no_tokens
    (fields cfg : list (str * json)) (text : str) :
  dict_lookup (u "text") fields = Some (JStr text) → text ≠ [] →
  dict_get fields (u "config") (JObj []) = JObj cfg →
  dict_get cfg (u "action") (JStr (u "remove")) = JStr (u "remove") →
  Forall (λ c, isspace c = true) text →
  (tag_text text = Ok [] ∨ ∃ e, tag_text text = Raise e) →
  simple_regex_fallback text = ([], [])
  ∧ process_text (JObj fields) =
    Respond 200%N (success_body (reconstruct []) [] text)
  ∧ ((∃ e, detokenize [] = Raise e) →
     process_text (JObj fields) = Respond 200%N (success_body [] [] text)).
Proof.
  intros Htext Hne Hcfg Haction Hw Htag.
  assert (simple_regex_fallback text = ([], [])) as Hfb.
  { unfold simple_regex_fallback. by rewrite (split_whitespace _ Hw). }
  assert (detect_fillers text = ([], [])) as Hdf.
  { destruct Htag as [Hok|[e He]].
    - unfold detect_fillers. by rewrite detect_fillers_nltk_tag_text, Hok.
    - by rewrite (detect_fillers_fallback _ _ He). }
  assert (process_text (JObj fields) =
          Respond 200%N (success_body (reconstruct []) [] text)) as Hp.
  { rewrite (process_text_str _ _ _ Htext Hne Hcfg), process_nonempty_eq.
    cbv zeta. rewrite Haction, (apply_script_correction_whitespace _ _ Hw), Hdf.
    done. }
  split_and!; [done | done |].
  intros [e He]. rewrite Hp. unfold reconstruct. by rewrite He.
Qed.

(** X15: a truthy text that is not a string (a number, [true], a
    non-empty list or object) under the context 'en-IN', the default,
    raises [AttributeError] for the missing [split] in the script
    correction, outside the [try] of the handler. *)
Theorem non_string_text_raises (fields : list (str * json)) (text : json) :
  dict_lookup (u "text") fields = Some text →
  json_truthy text = true → is_string text = false →
  config_ok fields →
  dict_get fields (u "language") en_IN = JStr (u "en-IN") →
  process_text (JObj fields) =
    Unhandled (AttributeError (type_name text) (u "split")).
Proof.
  intros Ht Htruthy Hns [cfg Hcfg]%config_ok_get Hlang.
  assert (dict_get fields (u "text") (JStr []) = text) as Hget.
  { unfold dict_get. by rewrite Ht. }
  rewrite (process_text_fields _ _ Hcfg). cbv zeta.
  rewrite Hget, Htruthy, Hlang. simpl negb. cbv iota.
  by destruct text.
Qed.

(** The handler on the fallback path, with the detokenizer unavailable
    for the content tokens. *)
Lemma process_nonempty_fallback (text : str) (context_lang : json) :
  let normalized := apply_script_correction text context_lang in
  let content := (simple_regex_fallback normalized).1 in
  (∃ e, tag_text normalized = Raise e) →
  (∃ e, detokenize content = Raise e) →
  process_nonempty text context_lang (JStr (u "remove")) =
  Respond 200%N
    (success_body (join (u " ") content) (simple_regex_fallback normalized).2
       normalized).
Proof.
  cbv zeta. intros [e He] [e' Hd]. rewrite process_nonempty_eq. cbv zeta.
  rewrite (detect_fillers_fallback _ _ He). unfold reconstruct. by rewrite Hd.
Qed.

(** X16: on the fallback path with the space join, 'remove' drops
    tokens and nothing else: the tokens of the processed text are the
    content tokens, a sublist of the tokens of the original text, and
    with the reported fillers they are as many as the original tokens. *)
Theorem fallback_remove_only_drops_tokens
    (fields cfg : list (str * json)) (text : str) :
  dict_lookup (u "text") fields = Some (JStr text) → text ≠ [] →
  dict_get fields (u "config") (JObj []) = JObj cfg →
  dict_get cfg (u "action") (JStr (u "remove")) = JStr (u "remove") →
  let normalized :=
    apply_script_correction text (dict_get fields (u "language") en_IN) in
  let content := (simple_regex_fallback normalized).1 in
  let fillers := (simple_regex_fallback normalized).2 in
  (∃ e, tag_text normalized = Raise e) →
  (∃ e, detokenize content = Raise e) →
  process_text (JObj fields) =
    Respond 200%N (success_body (join (u " ") content) fillers normalized)
  ∧ split (join (u " ") content) = content
  ∧ sublist content (split normalized)
  ∧ length (split (join (u " ") content)) + length fillers =
    length (split normalized).
Proof.
  intros Htext Hne Hcfg Haction. cbv zeta. intros He Hd.
  pose proof (split_join_proper _
                (fallback_content_proper
                   (apply_script_correction text
                      (dict_get fields (u "language") en_IN)))) as Hsplit.
  split_and!.
  - rewrite (process_text_str _ _ _ Htext Hne Hcfg), Haction.
    by apply process_nonempty_fallback.
  - done.
  - eapply interleave_sublist_l, fallback_interleave.
  - rewrite Hsplit. eapply interleave_length, fallback_interleave.
Qed.

Lemma apply_script_correction_content (text : str) (context_lang : json) :
  let normalized := apply_script_correction text context_lang in
  let content := (simple_regex_fallback normalized).1 in
  apply_script_correction (join (u " ") content) context_lang =
  join (u " ") content.
Proof.
  cbv zeta.
  destruct (en_IN_cases context_lang) as [->|Hne];
    [|by apply apply_script_correction_other].
  apply apply_script_correction_no_match.
  rewrite (split_join_proper _ (fallback_content_proper _)).
  intros token Hin. apply (corrected_text_no_match text).
  eapply elem_of_sublist; [exact Hin|].
  eapply interleave_sublist_l, fallback_interleave.
Qed.

(** X17: on the fallback path with the space join the pipeline is
    idempotent: the processed text of a 'remove' request, sent again as
    the text, comes back as it is, with no filler; when every token was
    a filler the processed text is empty and the second request is
    answered by the empty-input body. *)
Theorem fallback_pipeline_idempotent
    (fields cfg : list (str * json)) (text : str) :
  dict_lookup (u "text") fields = Some (JStr text) → text ≠ [] →
  dict_get fields (u "config") (JObj []) = JObj cfg →
  dict_get cfg (u "action") (JStr (u "remove")) = JStr (u "remove") →
  let normalized :=
    apply_script_correction text (dict_get fields (u "language") en_IN) in
  let content := (simple_regex_fallback normalized).1 in
  let output := join (u " ") content in
  (∃ e, tag_text normalized = Raise e) →
  (∃ e, tag_text output = Raise e) →
  (∃ e, detokenize content = Raise e) →
  process_text (JObj fields) =
    Respond 200%N
      (success_body output (simple_regex_fallback normalized).2 normalized)
  ∧ (output ≠ [] →
     process_text (JObj ((u "text", JStr output) :: fields)) =
       Respond 200%N (success_body output [] output))
  ∧ (output = [] →
     process_text (JObj ((u "text", JStr output) :: fields)) =
       Respond 200%N
         (JObj [(u "processed_text", JStr []); (u "fillers", JArr [])])).
Proof.
  intros Htext Hne Hcfg Haction. cbv zeta. intros He He' Hd.
  set (context_lang := dict_get fields (u "language") en_IN) in *.
  set (normalized := apply_script_correction text context_lang) in *.
  set (content := (simple_regex_fallback normalized).1) in *.
  split_and!.
  - rewrite (process_text_str _ _ _ Htext Hne Hcfg), Haction.
    by apply process_nonempty_fallback.
  - intros Hout.
    rewrite (process_text_str ((u "text", JStr (join (u " ") content)) :: fields)
               cfg (join (u " ") content)); [| done | done | done].
    rewrite Haction.
    change (dict_get ((u "text", JStr (join (u " ") content)) :: fields)
              (u "language") en_IN) with context_lang.
    pose proof (apply_script_correction_content text context_lang) as Hsame.
    cbv zeta in Hsame. fold normalized in Hsame. fold content in Hsame.
    rewrite process_nonempty_eq. cbv zeta. rewrite Hsame.
    destruct He' as [e' He'].
    rewrite (detect_fillers_fallback _ _ He').
    pose proof (fallback_rejoined normalized) as Hrej. fold content in Hrej.
    rewrite Hrej. cbn [fst snd orb].
    unfold reconstruct. destruct Hd as [e'' Hd]. by rewrite Hd.
  - intros Hout. rewrite Hout. apply process_text_falsy; [done|].
    unfold config_ok. cbn [dict_lookup].
    change (eqb (u "text") (u "config")) with false. cbv iota.
    unfold dict_get in Hcfg.
    by destruct (dict_lookup (u "config") fields) as [[]|].
Qed.

End Handler.

(** ** The further properties at concrete inputs *)

Lemma corrected_text_has_no_map_token_witness :
  u "stop" ∈ split (apply_script_correction (u "स्टॉप please") en_IN)
  ∧ dict_lookup (strip (u ".,!?।") (u "stop")) SCRIPT_CORRECTION_MAP = None.
Proof.
  assert (u "stop" ∈ split (apply_script_correction (u "स्टॉप please") en_IN))
    as Hin.
  { change (split (apply_script_correction (u "स्टॉप please") en_IN))
      with [u "stop"; u "please"]. constructor. }
  split; [exact Hin|].
  exact (corrected_text_has_no_map_token (u "स्टॉप please") (u "stop") Hin).
Defined.

Lemma script_correction_leaves_other_scripts_witness :
  Forall (λ c, is_devanagari c = false) (u "play   music, ok?")
  ∧ apply_script_correction (u "play   music, ok?") en_IN = u "play   music, ok?".
Proof.
  assert (Forall (λ c, is_devanagari c = false) (u "play   music, ok?")) as Hnd.
  { repeat constructor. }
  split; [exact Hnd|].
  exact (script_correction_leaves_other_scripts (u "play   music, ok?") en_IN Hnd).
Defined.

Lemma malformed_request_raises_witness :
  @process_text Ascii7.unicode Toy.nltk (JArr [JStr (u "um")]) =
    Unhandled (AttributeError (u "list") (u "get"))
  ∧ @process_text Ascii7.unicode Toy.nltk
      (JObj [(u "text", JStr []); (u "config", JStr (u "remove"))]) =
    Unhandled (AttributeError (u "str") (u "get")).
Proof.
  split.
  - exact (proj1 (@malformed_request_raises Ascii7.unicode Toy.nltk
                    (JArr [JStr (u "um")])) eq_refl).
  - exact (proj2 (@malformed_request_raises Ascii7.unicode Toy.nltk
                    (JObj [(u "text", JStr []); (u "config", JStr (u "remove"))]))
             [(u "text", JStr []); (u "config", JStr (u "remove"))]
             (JStr (u "remove")) eq_refl eq_refl eq_refl).
Defined.

Lemma falsy_text_short_circuits_witness :
  config_ok [(u "text", JNum 0)]
  ∧ @process_text Ascii7.unicode Toy.nltk (JObj [(u "text", JNum 0)]) =
    Respond 200%N (JObj [(u "processed_text", JStr []); (u "fillers", JArr [])]).
Proof.
  split; [exact I|].
  exact (@falsy_text_short_circuits Ascii7.unicode Toy.nltk
           [(u "text", JNum 0)] (JNum 0) eq_refl eq_refl I).
Defined.

Lemma unknown_action_preserves_witness :
  @process_text Ascii7.unicode Toy.nltk (request (u "the the cat") "delete") =
  Respond 200%N (success_body (u "the the cat") [u "the"] (u "the the cat")).
Proof.
  apply (@unknown_action_preserves Ascii7.unicode Toy.nltk
           [(u "text", JStr (u "the the cat"));
            (u "config", JObj [(u "action", JStr (u "delete"))])]
           [(u "action", JStr (u "delete"))] (u "the the cat")
           eq_refl ltac:(discriminate) eq_refl);
    discriminate.
Defined.

Lemma missing_fields_take_defaults_witness :
  @process_text Ascii7.unicode Toy.nltk (JObj [(u "text", JStr (u "स्टॉप um"))]) =
  @process_text Ascii7.unicode Toy.nltk
    (JObj [(u "language", JStr (u "en-IN"));
           (u "config", JObj [(u "action", JStr (u "remove"))]);
           (u "text", JStr (u "स्टॉप um"))]).
Proof.
  exact (@missing_fields_take_defaults Ascii7.unicode Toy.nltk
           [(u "text", JStr (u "स्टॉप um"))] eq_refl eq_refl).
Defined.

Lemma whitespace_text_has_no_tokens_witness :
  Forall (λ c, isspace c = true) (u "   ")
  ∧ @process_text Ascii7.unicode Offline.nltk (JObj [(u "text", JStr (u "   "))]) =
    Respond 200%N (success_body [] [] (u "   ")).
Proof.
  assert (Forall (λ c, isspace c = true) (u "   ")) as Hw.
  { repeat constructor. }
  split; [exact Hw|].
  apply (proj2 (proj2 (@whitespace_text_has_no_tokens Ascii7.unicode Offline.nltk
                         [(u "text", JStr (u "   "))] [] (u "   ")
                         eq_refl ltac:(discriminate) eq_refl eq_refl Hw
                         (or_intror (ex_intro _ Offline.missing eq_refl))))).
  exists Offline.missing. reflexivity.
Defined.

Lemma non_string_text_raises_witness :
  config_ok [(u "text", JNum 5)]
  ∧ @process_text Ascii7.unicode Toy.nltk (JObj [(u "text", JNum 5)]) =
    Unhandled (AttributeError (u "int") (u "split")).
Proof.
  split; [exact I|].
  exact (@non_string_text_raises Ascii7.unicode Toy.nltk
           [(u "text", JNum 5)] (JNum 5) eq_refl eq_refl eq_refl I eq_refl).
Defined.

Lemma fallback_remove_only_drops_tokens_witness :
  @process_text Ascii7.unicode Offline.nltk
    (JObj [(u "text", JStr (u "um the  the cat"))]) =
    Respond 200%N
      (success_body (u "the cat") [u "um"; u "the"] (u "um the  the cat"))
  ∧ split (u "the cat") = [u "the"; u "cat"].
Proof.
  pose proof (@fallback_remove_only_drops_tokens Ascii7.unicode Offline.nltk
                [(u "text", JStr (u "um the  the cat"))] [] (u "um the  the cat")
                eq_refl ltac:(discriminate) eq_refl eq_refl
                (ex_intro _ Offline.missing eq_refl)
                (ex_intro _ Offline.missing eq_refl)) as (Hp & Hs & _).
  split; [exact Hp | exact Hs].
Defined.

Lemma fallback_pipeline_idempotent_witness :
  @process_text Ascii7.unicode Offline.nltk
    (JObj [(u "text", JStr (u "um the  the cat"))]) =
    Respond 200%N
      (success_body (u "the cat") [u "um"; u "the"] (u "um the  the cat"))
  ∧ @process_text Ascii7.unicode Offline.nltk
      (JObj [(u "text", JStr (u "the cat")); (u "text", JStr (u "um the  the cat"))]) =
    Respond 200%N (success_body (u "the cat") [] (u "the cat")).
Proof.
  pose proof (@fallback_pipeline_idempotent Ascii7.unicode Offline.nltk
                [(u "text", JStr (u "um the  the cat"))] [] (u "um the  the cat")
                eq_refl ltac:(discriminate) eq_refl eq_refl
                (ex_intro _ Offline.missing eq_refl)
                (ex_intro _ Offline.missing eq_refl)
                (ex_intro _ Offline.missing eq_refl)) as (Hp & Hs & _).
  split; [exact Hp|]. apply Hs. discriminate.
Defined.

Lemma other_language_disables_correction_witness :
  @process_text Ascii7.unicode Toy.nltk
    (JObj [(u "text", JStr (u "स्टॉप")); (u "language", JNull)]) =
  Respond 200%N (success_body (u "स्टॉप") [] (u "स्टॉप")).
Proof.
  apply (@other_language_disables_correction Ascii7.unicode Toy.nltk
           [(u "text", JStr (u "स्टॉप")); (u "language", JNull)] [] (u "स्टॉप")
           JNull eq_refl ltac:(discriminate) eq_refl eq_refl ltac:(discriminate)).
Defined.

(** * The pipeline applied to its own output *)

Section Idempotence.
Context `{Unicode} `{Nltk}.

Lemma same_tagging_detect_fillers (a b : str) :
  same_tagging a b → detect_fillers a = detect_fillers b.
Proof.
  unfold same_tagging, detect_fillers.
  rewrite !detect_fillers_nltk_tag_text.
  destruct (tag_text a) as [ta|ea], (tag_text b) as [tb|eb]; try done.
  - by intros ->.
  - intros Hs. unfold simple_regex_fallback. by rewrite Hs.
Qed.

(** The corrected text, split and joined by single spaces, is not
    corrected again. *)
Lemma apply_script_correction_rejoined (text : str) (context_lang : json) :
  let rejoined :=
    join (u " ") (split (apply_script_correction text context_lang)) in
  apply_script_correction rejoined context_lang = rejoined.
Proof.
  cbv zeta. destruct (en_IN_cases context_lang) as [->|Hne];
    [|by apply apply_script_correction_other].
  apply apply_script_correction_no_match.
  rewrite (split_join_proper _ (split_proper _)).
  apply corrected_text_no_match.
Qed.

(** The request made of [fields] with [output] as its text. *)
Lemma process_text_again (fields cfg : list (str * json)) (output : str) :
  output ≠ [] →
  dict_get fields (u "config") (JObj []) = JObj cfg →
  process_text (JObj ((u "text", JStr output) :: fields)) =
  process_nonempty output (dict_get fields (u "language") en_IN)
    (dict_get cfg (u "action") (JStr (u "remove"))).
Proof.
  intros Hne Hcfg.
  by rewrite (process_text_str ((u "text", JStr output) :: fields) cfg output).
Qed.

(** C9, amended: for a non-empty text which, once script-corrected, has
    no interjection and no adjacent repeated alphabetic word on the path
    that classifies it, action 'remove' reports no filler and answers
    the reconstruction of all its tokens.  The request made with that
    answer as its text is answered the same text again, with no filler,
    whenever the answer is tokenized and tagged as the first text was;
    with the tagger and the detokenizer unavailable this always is so:
    the answer is the tokens joined by single spaces, and the second
    request returns it as it is. *)
Theorem cleaned_text_keeps_every_token
    (fields cfg : list (str * json)) (text : str) :
  dict_lookup (u "text") fields = Some (JStr text) → text ≠ [] →
  dict_get fields (u "config") (JObj []) = JObj cfg →
  dict_get cfg (u "action") (JStr (u "remove")) = JStr (u "remove") →
  let context_lang := dict_get fields (u "language") en_IN in
  let normalized := apply_script_correction text context_lang in
  let output := reconstruct (path_tokens normalized) in
  let again := JObj ((u "text", JStr output) :: fields) in
  cleaned normalized →
  process_text (JObj fields) = Respond 200%N (success_body output [] normalized)
  ∧ (output ≠ [] →
     same_tagging (apply_script_correction output context_lang) normalized →
     process_text again =
       Respond 200%N
         (success_body output [] (apply_script_correction output context_lang)))
  ∧ ((∃ e, tag_text normalized = Raise e) →
     (∃ e, detokenize (split normalized) = Raise e) →
     (∃ e, tag_text output = Raise e) →
     output = join (u " ") (split normalized)
     ∧ (output ≠ [] →
        process_text again = Respond 200%N (success_body output [] output))).
Proof.
  intros Htext Hne Hcfg Haction. cbv zeta.
  set (context_lang := dict_get fields (u "language") en_IN).
  set (normalized := apply_script_correction text context_lang).
  intros Hclean.
  pose proof (cleaned_no_fillers _ Hclean) as Hdf.
  assert (∀ output,
            output = reconstruct (path_tokens normalized) → output ≠ [] →
            same_tagging (apply_script_correction output context_lang)
              normalized →
            process_text (JObj ((u "text", JStr output) :: fields)) =
            Respond 200%N
              (success_body output []
                 (apply_script_correction output context_lang))) as Hagain.
  { intros output Hout Hone Hsame.
    rewrite (process_text_again _ _ _ Hone Hcfg), Haction, process_nonempty_eq.
    cbv zeta. fold context_lang.
    rewrite (same_tagging_detect_fillers _ _ Hsame), Hdf. cbn [fst snd orb].
    change (json_eq_str (JStr (u "remove")) (u "remove")) with true.
    cbn [orb]. by rewrite <- Hout. }
  split_and!.
  - rewrite (process_text_str _ _ _ Htext Hne Hcfg), process_nonempty_eq.
    cbv zeta. fold context_lang. fold normalized. by rewrite Haction, Hdf.
  - intros Hone Hsame. by apply Hagain.
  - intros [e He] [e' Hd] [e'' He''].
    assert (reconstruct (path_tokens normalized) =
            join (u " ") (split normalized)) as Hout.
    { unfold path_tokens, reconstruct. by rewrite He, Hd. }
    split; [done|]. intros Hone.
    pose proof (apply_script_correction_rejoined text context_lang) as Hfix.
    cbv zeta in Hfix. fold normalized in Hfix. rewrite <- Hout in Hfix.
    rewrite <- Hfix at 3. apply Hagain; [done | done |].
    rewrite Hfix. unfold same_tagging. rewrite He'', He, Hout.
    apply split_join_proper, split_proper.
Qed.

End Idempotence.

Lemma cleaned_text_keeps_every_token_witness :
  let fields := [(u "text", JStr (u "the  cat sat"))] in
  let again := [(u "text", JStr (u "the cat sat")); (u "text", JStr (u "the  cat sat"))] in
  @cleaned Ascii7.unicode Offline.nltk (u "the  cat sat")
  ∧ @process_text Ascii7.unicode Offline.nltk (JObj fields) =
    Respond 200%N (success_body (u "the cat sat") [] (u "the  cat sat"))
  ∧ @process_text Ascii7.unicode Offline.nltk (JObj again) =
    Respond 200%N (success_body (u "the cat sat") [] (u "the cat sat")).
Proof.
  cbv zeta.
  assert (@cleaned Ascii7.unicode Offline.nltk (u "the  cat sat")) as Hclean.
  { split.
    - repeat constructor; intros Hin; apply existsb_eqb_elem_of in Hin;
        vm_compute in Hin; discriminate Hin.
    - intros [|[|[|i]]] term Hi HSi; vm_compute in Hi, HSi; congruence. }
  pose proof (@cleaned_text_keeps_every_token Ascii7.unicode Offline.nltk
                [(u "text", JStr (u "the  cat sat"))] [] (u "the  cat sat")
                eq_refl ltac:(discriminate) eq_refl eq_refl Hclean)
    as (Hfirst & _ & Hfallback).
  destruct (Hfallback (ex_intro _ Offline.missing eq_refl)
              (ex_intro _ Offline.missing eq_refl)
              (ex_intro _ Offline.missing eq_refl)) as (_ & Hsecond).
  split_and!; [exact Hclean | exact Hfirst |].
  apply Hsecond. discriminate.
Defined.

(** C9: a text without fillers is not always answered unchanged, and
    the answer is not always answered unchanged either.  With the tagger
    and the detokenizer unavailable, 'a  b' (two spaces) has no
    interjection and no repeat, and is answered 'a b'.  With the tagger
    unavailable and a detokenizer that attaches punctuation, 'the , the'
    has no interjection and no repeat and is answered 'the, the'; that
    answer, sent again, is answered 'the,' with the filler 'the'. *)
Lemma cleaned_text_is_rejoined :
  (@cleaned Ascii7.unicode Offline.nltk (u "a  b")
   ∧ @process_text Ascii7.unicode Offline.nltk (request (u "a  b") "remove") =
     Respond 200%N (success_body (u "a b") [] (u "a  b"))
   ∧ @process_text Ascii7.unicode Offline.nltk (request (u "a  b") "remove") ≠
     Respond 200%N (success_body (u "a  b") [] (u "a  b")))
  ∧ (@cleaned Ascii7.unicode Attaching.nltk (u "the , the")
     ∧ @process_text Ascii7.unicode Attaching.nltk
         (request (u "the , the") "remove") =
       Respond 200%N (success_body (u "the, the") [] (u "the , the"))
     ∧ @process_text Ascii7.unicode Attaching.nltk
         (request (u "the, the") "remove") =
       Respond 200%N (success_body (u "the,") [u "the"] (u "the, the"))
     ∧ @process_text Ascii7.unicode Attaching.nltk
         (request (u "the, the") "remove") ≠
       @process_text Ascii7.unicode Attaching.nltk
         (request (u "the , the") "remove")).
Proof.
  split; split_and!.
  - split.
    + repeat constructor; intros Hin; apply existsb_eqb_elem_of in Hin;
        vm_compute in Hin; discriminate Hin.
    + intros [|[|i]] term Hi HSi; vm_compute in Hi, HSi; congruence.
  - reflexivity.
  - vm_compute. discriminate.
  - split.
    + repeat constructor; intros Hin; apply existsb_eqb_elem_of in Hin;
        vm_compute in Hin; discriminate Hin.
    + intros [|[|[|i]]] term Hi HSi; vm_compute in Hi, HSi; congruence.
  - reflexivity.
  - reflexivity.
  - vm_compute. discriminate.
Qed.
